(** * albus-status-bar-music: the metadata cache and its tag extractor

    A shallow embedding of [src/services/MetadataParser.ts] and
    [src/services/MetadataManager.ts].

    - JavaScript strings are [string]s holding the UTF-8 bytes of the text.
    - Values of type [any] coming out of the tag decoder are [JsValue]s.
    - [async] methods are run to completion at the point they are called;
      an awaited promise that rejects is an exception ([Thrown]).
    - [setTimeout]/[clearTimeout] act on an explicit queue of pending timers
      with a millisecond clock. *)

From Stdlib Require Import Ascii NArith ZArith Sorted.
From Stdlib Require String.
From stdpp Require Import base option list gmap fin_maps strings pretty.

(** ** JavaScript strings *)

Module Js.

Definition code (c : ascii) : N := N_of_ascii c.

(** A string is truthy when it is not empty. *)
Definition nonEmpty (s : string) : bool :=
  match s with EmptyString => false | String _ _ => true end.

(** [WhiteSpace] and [LineTerminator] code points that take one byte. *)
Definition space1 (a : ascii) : bool :=
  let n := code a in
  ((9 <=? n) && (n <=? 13) || (n =? 32))%N.

(** U+00A0. *)
Definition space2 (a b : ascii) : bool :=
  ((code a =? 194) && (code b =? 160))%N.

(** U+1680, U+2000..U+200A, U+2028, U+2029, U+202F, U+205F, U+3000 and
    U+FEFF. *)
Definition space3 (a b c : ascii) : bool :=
  let x := code a in let y := code b in let z := code c in
  ((x =? 225) && (y =? 154) && (z =? 128)
   || (x =? 226) && (y =? 128)
      && ((128 <=? z) && (z <=? 138) || (z =? 168) || (z =? 169) || (z =? 175))
   || (x =? 226) && (y =? 129) && (z =? 159)
   || (x =? 227) && (y =? 128) && (z =? 128)
   || (x =? 239) && (y =? 187) && (z =? 191))%N.

(** Drops leading white space.  With [back] the string is read as the
    reversal of a text, so the bytes of a code point come last-first. *)
Fixpoint dropSpace (back : bool) (s : string) : string :=
  match s with
  | EmptyString => EmptyString
  | String a r =>
    if space1 a then dropSpace back r
    else
      match r with
      | String b r2 =>
        if (if back then space2 b a else space2 a b) then dropSpace back r2
        else
          match r2 with
          | String c r3 =>
            if (if back then space3 c b a else space3 a b c)
            then dropSpace back r3
            else s
          | EmptyString => s
          end
      | EmptyString => s
      end
  end.

(** [String.prototype.trim]. *)
Definition trim (s : string) : string :=
  String.rev (dropSpace true (String.rev (dropSpace false s))).

Definition lowerChar (c : ascii) : ascii :=
  let n := code c in
  if ((65 <=? n) && (n <=? 90))%N then ascii_of_N (n + 32) else c.

(** [String.prototype.toLowerCase], on the ASCII letters.  The only code
    point outside ASCII whose lower case contains one of the letters of
    "lyric" is U+0130, which becomes "i" followed by U+0307; that never
    completes an occurrence of "lyric", so [includes "lyric"] of the result
    is what JavaScript computes. *)
Fixpoint toLowerCase (s : string) : string :=
  match s with
  | EmptyString => EmptyString
  | String c r => String (lowerChar c) (toLowerCase r)
  end.

(** [String.prototype.startsWith]. *)
Fixpoint startsWith (s prefix : string) : bool :=
  match prefix, s with
  | EmptyString, _ => true
  | String _ _, EmptyString => false
  | String p prefix', String c s' =>
    if decide (p = c) then startsWith s' prefix' else false
  end.

(** [String.prototype.includes]. *)
Fixpoint includes (s needle : string) : bool :=
  startsWith s needle ||
  match s with
  | EmptyString => false
  | String _ r => includes r needle
  end.

Definition isSlash (c : ascii) : bool := (code c =? 47)%N.
Definition isDot (c : ascii) : bool := (code c =? 46)%N.

Fixpoint afterLastSlash (s : string) : option string :=
  match s with
  | EmptyString => None
  | String c r =>
    match afterLastSlash r with
    | Some t => Some t
    | None => if isSlash c then Some r else None
    end
  end.

(** [s.split('/').pop()]: the text after the last slash, the whole string
    when it has none.  [split] never returns an empty array, so [pop] is
    defined. *)
Definition lastSegment (s : string) : string :=
  default s (afterLastSlash s).

Fixpoint hasDot (s : string) : bool :=
  match s with
  | EmptyString => false
  | String c r => isDot c || hasDot r
  end.

(** The leftmost match of [/\.[^.]+$/] replaced by [ext]: it can only
    start at the last dot, and needs one character after it. *)
Fixpoint replaceExtension (ext s : string) : option string :=
  match s with
  | EmptyString => None
  | String c r =>
    if isDot c && nonEmpty r && negb (hasDot r) then Some ext
    else String c <$> replaceExtension ext r
  end.

(** [s.replace(/\.[^.]+$/, ext)]. *)
Definition withExtension (ext s : string) : string :=
  default s (replaceExtension ext s).

End Js.

(** ** Values of type [any] *)

(** Numbers are the integers; they only occur as time stamps. An object is
    the list of its own properties, the first binding of a key counts. *)
#[warnings="-register-all"] Inductive JsValue : Type :=
  | JUndefined
  | JNull
  | JBool (b : bool)
  | JNum (n : Z)
  | JStr (s : string)
  | JArr (items : list JsValue)
  | JObj (props : list (string * JsValue)).

(** The outcome of a block that may throw. *)
Inductive Completion (A : Type) : Type :=
  | Normal (a : A)
  | Thrown.
Arguments Normal {A} a.
Arguments Thrown {A}.

(** [try { body } catch { handler }]. *)
Definition tryCatch {A : Type} (body : Completion A) (handler : A) : A :=
  match body with
  | Normal a => a
  | Thrown => handler
  end.

Definition bindC {A B : Type} (c : Completion A) (k : A -> Completion B)
  : Completion B :=
  match c with
  | Normal a => k a
  | Thrown => Thrown
  end.

Module Value.

(** [ToBoolean]. *)
Definition truthy (v : JsValue) : bool :=
  match v with
  | JUndefined | JNull => false
  | JBool b => b
  | JNum n => negb (n =? 0)%Z
  | JStr s => Js.nonEmpty s
  | JArr _ | JObj _ => true
  end.

(** [key in obj] together with [obj[key]]: applies [f] to the value the
    key is bound to. *)
Definition withProp {A : Type} (key : string) (f : JsValue -> A)
  : list (string * JsValue) -> option A :=
  fix go (props : list (string * JsValue)) : option A :=
    match props with
    | [] => None
    | (k, v) :: rest => if decide (k = key) then Some (f v) else go rest
    end.

Definition getProp (key : string) (props : list (string * JsValue))
  : option JsValue :=
  withProp key (fun v => v) props.

(** What [Array.prototype.join] makes of one element. *)
Fixpoint joinItem (v : JsValue) : string :=
  match v with
  | JUndefined | JNull => EmptyString
  | JBool b => if b then "true" else "false"
  | JNum n => pretty n
  | JStr s => s
  | JArr items => String.concat "," (List.map joinItem items)
  | JObj _ => "[object Object]"
  end.

Definition join (sep : string) (items : list JsValue) : string :=
  String.concat sep (List.map joinItem items).

Definition isNull (v : JsValue) : bool :=
  match v with JNull => true | _ => false end.

End Value.

(** A [string | null] is truthy when it is a non-empty string. *)
Definition truthyText (t : option string) : bool :=
  match t with
  | Some s => Js.nonEmpty s
  | None => false
  end.

(** [a || b] on [string | null] operands. *)
Definition orText (a b : option string) : option string :=
  if truthyText a then a else b.

(** ** Types ([src/types], [music-metadata]) *)

(** Modelled from the spec: [TrackMetadata] of [src/types], which is not
    among the sources; section 6 gives its shape, and the sources build
    records of that shape. *)
Record TrackMetadata : Type := {
  title : string;
  artist : string;
  album : string;
  cover : option string;
  lyrics : option string
}.

(** The decoder's result, as far as the parser reads it. *)
Module mm.

Record ITag : Type := { id : string; value : JsValue }.

Record IPicture : Type := { format : string; data : list Byte.byte }.

Record ICommonTagsResult : Type := {
  title : option string;
  artist : option string;
  album : option string;
  picture : option (list IPicture);
  lyrics : JsValue
}.

(** [native] maps a tag type to its tags; these are the types looked up. *)
Record INativeTags : Type := {
  id3v2 : option (list ITag);
  vorbis : option (list ITag);
  apev2 : option (list ITag);
  iTunes : option (list ITag);
  mp4 : option (list ITag);
  asf : option (list ITag)
}.

Record IAudioMetadata : Type := {
  common : ICommonTagsResult;
  native : option INativeTags
}.

End mm.

(** A record of the plugin's data file, as [JSON.parse] returns it: a field
    that is missing or [null] is [None]. *)
Record StoredMetadata : Type := {
  stored_title : option string;
  stored_artist : option string;
  stored_album : option string;
  stored_cover : option string;
  stored_lyrics : option string
}.

Record StoredData : Type := {
  stored_metadata : option (gmap string StoredMetadata)
}.

(** What the repository imports from outside [src/services]: the decoder
    of [music-metadata], the helpers of [utils/helpers], and [JSON.parse] at
    the shape of the plugin's data file. *)
Class Platform : Type := {
  parseBuffer : list Byte.byte -> Completion mm.IAudioMetadata;
  isSupportedAudioFile : string -> bool;
  normalizePath : string -> string;
  JSON_parse : string -> Completion StoredData
}.

(** Modelled from the spec: [DEFAULT_METADATA] of [utils/constants], which is
    not among the sources; section 4.1 gives its fields. *)
Definition DEFAULT_METADATA : TrackMetadata := {|
  title := "Unknown Title";
  artist := "Unknown Artist";
  album := "Unknown Album";
  cover := None;
  lyrics := None
|}.

(** ** MetadataParser *)

Record Blob : Type := { blobData : list Byte.byte; blobType : string }.

(** [issued] counts the object URLs handed out so far: it stands for
    [URL.createObjectURL], which never returns the same URL twice. *)
Record MetadataParser : Type := {
  blobUrls : gmap string Blob;
  issued : nat
}.

Definition createObjectURL (n : nat) : string := "blob:" +:+ pretty n.

Definition newline : string := String (ascii_of_N 10) EmptyString.

(** [a || fallback] for an optional string field. *)
Definition orString (a : option string) (fallback : string) : string :=
  match a with
  | Some s => if Js.nonEmpty s then s else fallback
  | None => fallback
  end.

(** [obj.key] on a value that is neither [null] nor [undefined]. *)
Definition member (key : string) (obj : JsValue) : JsValue :=
  match obj with
  | JObj props => default JUndefined (Value.getProp key props)
  | _ => JUndefined
  end.

(** One line of a SYLT frame, as the [map] callback returns it. *)
Definition lineText (line : JsValue) : JsValue :=
  match line with
  | JStr _ => line
  | JObj props => default JNull (Value.getProp "text" props)
  | _ => JNull
  end.

Fixpoint extractLyricsText (value : JsValue) : option string :=
  if negb (Value.truthy value) then None
  else
    match value with
    | JStr s =>
      let trimmed := Js.trim s in
      if Js.nonEmpty trimmed then Some trimmed else None
    | JArr items =>
      (fix each (l : list JsValue) : option string :=
         match l with
         | [] => None
         | item :: rest =>
           let text := extractLyricsText item in
           if truthyText text then text else each rest
         end) items
    | JObj props =>
      let text :=
        match Value.withProp "text"
                (fun t => if Value.truthy t then extractLyricsText t else None)
                props with
        | Some text => text
        | None => None
        end in
      if truthyText text then text
      else
        match Value.withProp "descriptor"
                (fun d => if Value.truthy d then Some (extractLyricsText d)
                          else None)
                props with
        | Some (Some r) => r
        | _ =>
          match Value.getProp "lyrics" props with
          | Some (JArr ls) =>
            let lines :=
              List.filter (fun line => negb (Value.isNull line))
                          (List.map lineText ls) in
            match lines with
            | [] => None
            | _ :: _ => Some (Value.join newline lines)
            end
          | _ => None
          end
        end
    | _ => None
    end.

(** The body of [if (tag?.value) { ... if (lyricsText) return lyricsText }]:
    [Some] when the function returns there. *)
Definition lyricsOfTag (tag : option mm.ITag) : option string :=
  match tag with
  | Some t =>
    if Value.truthy (mm.value t) then
      let lyricsText := extractLyricsText (mm.value t) in
      if truthyText lyricsText then lyricsText else None
    else None
  | None => None
  end.

(** The callback [tag.id === a || tag.id === b || ...] of a [find]. *)
Definition hasId (names : list string) (tag : mm.ITag) : bool :=
  bool_decide (mm.id tag ∈ names).

(** Step 1 of [extractLyrics]: [common.lyrics]. *)
Definition lyricsOfCommon (lyrics : JsValue) : option string :=
  match lyrics with
  | JArr items =>
    (fix each (l : list JsValue) : option string :=
       match l with
       | [] => None
       | lyric :: rest =>
         match lyric with
         | JStr s =>
           if Js.nonEmpty s && Js.nonEmpty (Js.trim s) then Some (Js.trim s)
           else each rest
         | JObj props =>
           match Value.getProp "text" props with
           | Some (JStr text) =>
             if Js.nonEmpty text && Js.nonEmpty (Js.trim text)
             then Some (Js.trim text)
             else each rest
           | _ => each rest
           end
         | _ => each rest
         end
       end) items
  | _ => None
  end.

(** The callback of the TXXX [find]:
    [tag.id === "TXXX" && tag.value?.description?.toLowerCase().includes("lyric")].
    A description that is neither a string nor missing has no [toLowerCase],
    and calling it throws. *)
Definition isLyricsTXXX (tag : mm.ITag) : Completion bool :=
  if decide (mm.id tag = "TXXX") then
    match mm.value tag with
    | JObj props =>
      match default JUndefined (Value.getProp "description" props) with
      | JUndefined | JNull => Normal false
      | JStr description =>
        Normal (Js.includes (Js.toLowerCase description) "lyric")
      | _ => Thrown
      end
    | _ => Normal false
    end
  else Normal false.

(** [Array.prototype.find] with a callback that may throw. *)
Fixpoint findC {A : Type} (f : A -> Completion bool) (l : list A)
  : Completion (option A) :=
  match l with
  | [] => Normal None
  | x :: rest =>
    bindC (f x) (fun b => if b then Normal (Some x) else findC f rest)
  end.

(** The USLT frame, then the SYLT frame, then the TXXX frame of step 2:
    each a [find] and the [if] that follows it. *)
Definition lyricsOfUSLT (tags : list mm.ITag) : option string :=
  lyricsOfTag (List.find (hasId ["USLT"]) tags).

Definition lyricsOfSYLT (tags : list mm.ITag) : option string :=
  lyricsOfTag (List.find (hasId ["SYLT"]) tags).

Definition lyricsOfTXXX (tags : list mm.ITag) : Completion (option string) :=
  bindC (findC isLyricsTXXX tags) (fun txxxTag =>
    Normal
      match txxxTag with
      | Some t =>
        if Value.truthy (mm.value t) then
          let text := member "text" (mm.value t) in
          if Value.truthy text then
            let lyricsText := extractLyricsText text in
            if truthyText lyricsText then lyricsText else None
          else None
        else None
      | None => None
      end).

(** [return found] when a step found lyrics, the rest of the function body
    otherwise. *)
Definition orContinue (found : option string)
    (rest : Completion (option string)) : Completion (option string) :=
  match found with
  | Some s => Normal (Some s)
  | None => rest
  end.

(** Step 2, the block under [if (metadata.native?.id3v2)]. *)
Definition lyricsOfId3v2 (tags : list mm.ITag) : Completion (option string) :=
  orContinue (lyricsOfUSLT tags)
    (orContinue (lyricsOfSYLT tags) (lyricsOfTXXX tags)).

(** Steps 3 to 6, each inside the [if] on its container. *)
Definition lyricsOfVorbis (tags : list mm.ITag) : option string :=
  lyricsOfTag
    (List.find (hasId ["LYRICS"; "UNSYNCEDLYRICS"; "lyrics"; "UNSYNCED LYRICS"])
               tags).

Definition lyricsOfApev2 (tags : list mm.ITag) : option string :=
  lyricsOfTag
    (List.find (hasId ["Lyrics"; "LYRICS"; "UNSYNCED LYRICS"]) tags).

(** "©lyr", the copyright sign being U+00A9. *)
Definition lyrAtom : string :=
  String (ascii_of_N 194) (String (ascii_of_N 169) "lyr").

Definition lyricsOfITunes (tags : list mm.ITag) : option string :=
  lyricsOfTag
    (List.find (hasId [lyrAtom; "----:com.apple.iTunes:LYRICS"]) tags).

Definition lyricsOfAsf (tags : list mm.ITag) : option string :=
  lyricsOfTag
    (List.find (hasId ["WM/Lyrics"; "WM/Lyrics_Synchronised"]) tags).

(** [metadata.native?.[type]]. *)
Definition nativeTags (type : mm.INativeTags -> option (list mm.ITag))
    (metadata : mm.IAudioMetadata) : option (list mm.ITag) :=
  mm.native metadata ≫= type.

(** [if (tags) { block }]: nothing found when the container is absent. *)
Definition inContainer {A : Type} (tags : option (list mm.ITag))
    (none : A) (block : list mm.ITag -> A) : A :=
  match tags with
  | Some ts => block ts
  | None => none
  end.

(** The [try] block of [extractLyrics]. *)
Definition extractLyricsBody (metadata : mm.IAudioMetadata)
  : Completion (option string) :=
  orContinue (lyricsOfCommon (mm.lyrics (mm.common metadata)))
    (bindC (inContainer (nativeTags mm.id3v2 metadata) (Normal None)
                        lyricsOfId3v2)
       (fun found =>
    orContinue found
    (orContinue (inContainer (nativeTags mm.vorbis metadata) None
                             lyricsOfVorbis)
    (orContinue (inContainer (nativeTags mm.apev2 metadata) None
                             lyricsOfApev2)
    (orContinue (inContainer
                   (match nativeTags mm.iTunes metadata with
                    | Some ts => Some ts
                    | None => nativeTags mm.mp4 metadata
                    end) None lyricsOfITunes)
    (orContinue (inContainer (nativeTags mm.asf metadata) None lyricsOfAsf)
    (Normal None))))))).

Definition extractLyrics (metadata : mm.IAudioMetadata) : option string :=
  tryCatch (extractLyricsBody metadata) None.

(** The host calls in the [try] block are taken not to throw. *)
Definition extractCover (pictures : option (list mm.IPicture))
    (p : MetadataParser) : option string * MetadataParser :=
  match pictures with
  | None | Some [] => (None, p)
  | Some (picture :: _) =>
    let blob := {| blobData := mm.data picture;
                   blobType := mm.format picture |} in
    let blobUrl := createObjectURL (issued p) in
    (Some blobUrl,
     {| blobUrls := <[blobUrl := blob]> (blobUrls p);
        issued := S (issued p) |})
  end.

Definition extractMetadata `{Platform} (arrayBuffer : list Byte.byte)
    (lyricsFromLrcFile : option string) (p : MetadataParser)
  : TrackMetadata * MetadataParser :=
  tryCatch
    (bindC (parseBuffer arrayBuffer) (fun metadata =>
       let lyrics := orText lyricsFromLrcFile (extractLyrics metadata) in
       let '(coverUrl, p') :=
         extractCover (mm.picture (mm.common metadata)) p in
       Normal
         ({| title := orString (mm.title (mm.common metadata)) "未知标题";
             artist := orString (mm.artist (mm.common metadata)) "未知艺术家";
             album := orString (mm.album (mm.common metadata)) "未知专辑";
             cover := coverUrl;
             lyrics := lyrics |}, p')))
    (DEFAULT_METADATA, p).

(** [cleanup] of the parser: every URL is revoked and the registry emptied. *)
Definition parserCleanup (p : MetadataParser) : MetadataParser :=
  {| blobUrls := ∅; issued := issued p |}.

(** ** The vault ([obsidian]) *)

Record TFile : Type := { path : string; name : string; basename : string }.

Inductive TAbstractFile : Type :=
  | IsFile (file : TFile)
  | IsFolder.

(** A read whose promise rejects is [Thrown]. *)
Record Vault : Type := {
  configDir : string;
  getFiles : list TFile;
  getAbstractFileByPath : string -> option TAbstractFile;
  readBinary : TFile -> Completion (list Byte.byte);
  read : TFile -> Completion string
}.

(** ** MetadataManager *)

(** Modelled from the spec: [PluginSettings] of [src/types], as far as the
    manager reads and writes it: the optional [metadata] object of section
    6, keyed by path. *)
Record PluginSettings : Type := {
  metadata : option (gmap string TrackMetadata)
}.

(** The fields of the class.  [cache] is the Map as a finite map: the order
    of its entries is not observed by what follows.  [onSaveNeeded] only
    records whether a callback was set; calling it is logged by the event
    loop below. *)
Record MetadataManager : Type := {
  app : Vault;
  parser : MetadataParser;
  cache : gmap string TrackMetadata;
  isDirty : bool;
  saveTimeout : option nat;
  onSaveNeeded : bool;
  isInitialized : bool;
  totalTracks : nat;
  processedTracks : nat
}.

Inductive TimerTask : Type :=
  | UpdateFile (filePath : string)
  | NotifySave.

Record Timer : Type := { timerId : nat; due : nat; task : TimerTask }.

(** The host's timers, in the order they will fire, its clock in
    milliseconds, and the calls of the save callback so far: when each was
    made and what [exportToSettings] returned at that moment. *)
Record EventLoop : Type := {
  now : nat;
  timers : list Timer;
  nextTimerId : nat;
  saveCalls : list (nat * PluginSettings)
}.

Record World : Type := { manager : MetadataManager; loop : EventLoop }.

(** ['create' | 'delete' | 'modify']. *)
Inductive ChangeType : Type := Create | Delete | Modify.

Definition newManager (vault : Vault) : MetadataManager := {|
  app := vault;
  parser := {| blobUrls := ∅; issued := 0 |};
  cache := ∅;
  isDirty := false;
  saveTimeout := None;
  onSaveNeeded := false;
  isInitialized := false;
  totalTracks := 0;
  processedTracks := 0
|}.

Definition newWorld (vault : Vault) : World := {|
  manager := newManager vault;
  loop := {| now := 0; timers := []; nextTimerId := 1; saveCalls := [] |}
|}.

(** *** Field updates *)

Definition withCache (c : gmap string TrackMetadata) (m : MetadataManager)
  : MetadataManager :=
  {| app := app m; parser := parser m; cache := c; isDirty := isDirty m;
     saveTimeout := saveTimeout m; onSaveNeeded := onSaveNeeded m;
     isInitialized := isInitialized m; totalTracks := totalTracks m;
     processedTracks := processedTracks m |}.

Definition withParser (p : MetadataParser) (m : MetadataManager)
  : MetadataManager :=
  {| app := app m; parser := p; cache := cache m; isDirty := isDirty m;
     saveTimeout := saveTimeout m; onSaveNeeded := onSaveNeeded m;
     isInitialized := isInitialized m; totalTracks := totalTracks m;
     processedTracks := processedTracks m |}.

Definition withDirty (b : bool) (m : MetadataManager) : MetadataManager :=
  {| app := app m; parser := parser m; cache := cache m; isDirty := b;
     saveTimeout := saveTimeout m; onSaveNeeded := onSaveNeeded m;
     isInitialized := isInitialized m; totalTracks := totalTracks m;
     processedTracks := processedTracks m |}.

Definition withSaveTimeout (t : option nat) (m : MetadataManager)
  : MetadataManager :=
  {| app := app m; parser := parser m; cache := cache m; isDirty := isDirty m;
     saveTimeout := t; onSaveNeeded := onSaveNeeded m;
     isInitialized := isInitialized m; totalTracks := totalTracks m;
     processedTracks := processedTracks m |}.

Definition withProgress (initialized : bool) (total processed : nat)
    (m : MetadataManager) : MetadataManager :=
  {| app := app m; parser := parser m; cache := cache m; isDirty := isDirty m;
     saveTimeout := saveTimeout m; onSaveNeeded := onSaveNeeded m;
     isInitialized := initialized; totalTracks := total;
     processedTracks := processed |}.

Definition withTimers (ts : list Timer) (l : EventLoop) : EventLoop :=
  {| now := now l; timers := ts; nextTimerId := nextTimerId l;
     saveCalls := saveCalls l |}.

Definition withNow (t : nat) (l : EventLoop) : EventLoop :=
  {| now := t; timers := timers l; nextTimerId := nextTimerId l;
     saveCalls := saveCalls l |}.

(** *** Timers *)

(** A timer goes behind those due no later than it. *)
Fixpoint enqueue (t : Timer) (ts : list Timer) : list Timer :=
  match ts with
  | [] => [t]
  | u :: rest =>
    if due u <=? due t then u :: enqueue t rest else t :: ts
  end.

Definition setTimeout (delay : nat) (job : TimerTask) (l : EventLoop)
  : nat * EventLoop :=
  let t := {| timerId := nextTimerId l; due := now l + delay; task := job |} in
  (nextTimerId l,
   {| now := now l; timers := enqueue t (timers l);
      nextTimerId := S (nextTimerId l); saveCalls := saveCalls l |}).

Definition clearTimeout (handle : nat) (l : EventLoop) : EventLoop :=
  withTimers (List.filter (fun t => negb (timerId t =? handle)) (timers l)) l.

(** *** Methods that do not touch the timers *)

Definition setSaveCallback (m : MetadataManager) : MetadataManager :=
  {| app := app m; parser := parser m; cache := cache m; isDirty := isDirty m;
     saveTimeout := saveTimeout m; onSaveNeeded := true;
     isInitialized := isInitialized m; totalTracks := totalTracks m;
     processedTracks := processedTracks m |}.

Definition isFullyInitialized (m : MetadataManager) : bool := isInitialized m.

(** [validCover && validCover.startsWith('blob:')]. *)
Definition startsWithBlob (coverUrl : option string) : bool :=
  match coverUrl with
  | Some url => Js.nonEmpty url && Js.startsWith url "blob:"
  | None => false
  end.

(** The record built in the [forEach] callback of [initializeFromSettings]. *)
Definition fullMetadata (metadata : TrackMetadata) : TrackMetadata :=
  let validCover :=
    if startsWithBlob (cover metadata) then None else cover metadata in
  {| title := title metadata;
     artist := artist metadata;
     album := album metadata;
     cover := validCover;
     lyrics := orText (lyrics metadata) None |}.

Definition initializeFromSettings (settings : PluginSettings)
    (m : MetadataManager) : MetadataManager :=
  let m0 := withProgress false (totalTracks m) 0 (withCache ∅ m) in
  match metadata settings with
  | Some entries =>
    let m1 := withProgress false (size entries) 0 m0 in
    let m2 :=
      map_fold (fun path metadata acc =>
                  withProgress (isInitialized acc) (totalTracks acc)
                               (S (processedTracks acc))
                    (withCache (<[path := fullMetadata metadata]> (cache acc))
                               acc))
               m1 entries in
    withProgress true (totalTracks m2) (processedTracks m2) m2
  | None => withProgress true 0 0 m0
  end.

Definition exportToSettings (m : MetadataManager) : PluginSettings :=
  {| metadata :=
       Some (map_fold (fun path trackMetadata acc =>
                         <[path := trackMetadata]> acc) ∅ (cache m)) |}.

Definition getMetadata (filePath : string) (m : MetadataManager)
  : option TrackMetadata :=
  cache m !! filePath.

Definition getCacheSize (m : MetadataManager) : nat := size (cache m).

Definition needsSave (m : MetadataManager) : bool := isDirty m.

(** [{ metadata: {} }]. *)
Definition emptyData : StoredData := {| stored_metadata := Some ∅ |}.

Definition loadExistingData `{Platform} (m : MetadataManager) : StoredData :=
  tryCatch
    (let dataPath :=
       configDir (app m) +:+ "/plugins/albus-status-bar-music/data.json" in
     match getAbstractFileByPath (app m) dataPath with
     | Some (IsFile dataFile) =>
       bindC (read (app m) dataFile) (fun content => JSON_parse content)
     | _ => Normal emptyData
     end)
    emptyData.

(** The text of the [.lrc] file next to [file], [None] when there is none,
    when it is blank, or when reading it fails. *)
Definition lyricsFromLrcFile (vault : Vault) (file : TFile) : option string :=
  tryCatch
    (let lrcFilePath := Js.withExtension ".lrc" (path file) in
     match getAbstractFileByPath vault lrcFilePath with
     | Some (IsFile lrcFile) =>
       bindC (read vault lrcFile) (fun text =>
         Normal (if Js.nonEmpty text && Js.nonEmpty (Js.trim text)
                 then Some text else None))
     | _ => Normal None
     end)
    None.

Definition extractFileMetadata `{Platform} (file : TFile)
    (m : MetadataManager) : Completion (TrackMetadata * MetadataParser) :=
  bindC (readBinary (app m) file) (fun arrayBuffer =>
    Normal (extractMetadata arrayBuffer (lyricsFromLrcFile (app m) file)
                            (parser m))).

(** [this.cache.set(filePath, metadata)], with the parser as the extraction
    left it. *)
Definition store (filePath : string) (r : TrackMetadata * MetadataParser)
    (m : MetadataManager) : MetadataManager :=
  withCache (<[filePath := r.1]> (cache m)) (withParser r.2 m).

(** The record [processFileIfNeeded] takes over from the stored data when
    that is complete. *)
Definition reusedMetadata (titleText artistText : string)
    (existingMetadata : StoredMetadata) : TrackMetadata :=
  {| title := titleText;
     artist := artistText;
     album := orString (stored_album existingMetadata) "未知专辑";
     cover := orText (stored_cover existingMetadata) None;
     lyrics := orText (stored_lyrics existingMetadata) None |}.

(** The record of the [catch] block of [processFileIfNeeded]. *)
Definition defaultMetadata (file : TFile) : TrackMetadata :=
  {| title := basename file;
     artist := "未知艺术家";
     album := "未知专辑";
     cover := None;
     lyrics := None |}.

(** [existingData.metadata && existingData.metadata[file.path]]. *)
Definition existingFor (existingData : StoredData) (file : TFile)
  : option StoredMetadata :=
  stored_metadata existingData ≫= (fun entries => entries !! path file).

(** The stored title and artist when both are truthy:
    [existingMetadata.title && existingMetadata.artist]. *)
Definition complete (existingMetadata : StoredMetadata)
  : option (string * string) :=
  match stored_title existingMetadata, stored_artist existingMetadata with
  | Some t, Some a =>
    if Js.nonEmpty t && Js.nonEmpty a then Some (t, a) else None
  | _, _ => None
  end.

Definition processFileIfNeeded `{Platform} (file : TFile)
    (existingData : StoredData) (m : MetadataManager) : MetadataManager :=
  let reprocess :=
    bindC (extractFileMetadata file m) (fun r =>
      Normal (store (path file) r m)) in
  tryCatch
    (match existingFor existingData file with
     | Some existingMetadata =>
       match complete existingMetadata with
       | Some (t, a) =>
         Normal (withCache
                   (<[path file := reusedMetadata t a existingMetadata]>
                      (cache m)) m)
       | None => reprocess
       end
     | None => reprocess
     end)
    (withCache (<[path file := defaultMetadata file]> (cache m)) m).

(** [existingMetadata.cover = coverUrl]: the cached record with another
    cover. *)
Definition withCover (coverUrl : option string) (r : TrackMetadata)
  : TrackMetadata :=
  {| title := title r; artist := artist r; album := album r;
     cover := coverUrl; lyrics := lyrics r |}.

(** The extraction registers its cover with the parser whether or not the
    cover is then assigned; the record of the cache is assigned to in
    place. *)
Definition loadCoverForFile `{Platform} (filePath : string)
    (m : MetadataManager) : MetadataManager :=
  tryCatch
    (match getAbstractFileByPath (app m) filePath with
     | Some (IsFile file) =>
       bindC (extractFileMetadata file m) (fun r =>
         let m' := withParser r.2 m in
         Normal
           match cache m !! filePath with
           | Some existingMetadata =>
             if truthyText (cover r.1) then
               withCache (<[filePath := withCover (cover r.1) existingMetadata]>
                            (cache m)) m'
             else m'
           | None => m'
           end)
     | _ => Normal m
     end)
    m.

(** *** Methods that set or clear timers *)

Definition onManager (f : MetadataManager -> MetadataManager) (w : World)
  : World :=
  {| manager := f (manager w); loop := loop w |}.

(** [if (this.saveTimeout) { clearTimeout(this.saveTimeout) }]; a handle
    is never falsy. *)
Definition clearSaveTimeout (w : World) : EventLoop :=
  match saveTimeout (manager w) with
  | Some handle => clearTimeout handle (loop w)
  | None => loop w
  end.

Definition scheduleSave (w : World) : World :=
  let '(handle, l) := setTimeout 500 NotifySave (clearSaveTimeout w) in
  {| manager := withSaveTimeout (Some handle) (manager w); loop := l |}.

(** The files of the vault under one of the folders that the suffix filter
    accepts, folder by folder. *)
Definition musicFilesIn `{Platform} (vault : Vault)
    (validFolders : list string) : list TFile :=
  List.flat_map
    (fun folderPath =>
       let normalizedPath := normalizePath folderPath in
       List.filter
         (fun file => Js.startsWith (path file) normalizedPath
                      && isSupportedAudioFile (name file))
         (getFiles vault))
    validFolders.

Definition validFolder (p : string) : bool :=
  Js.nonEmpty p && Js.nonEmpty (Js.trim p).

(** The tasks of the batch are run one after the other, in the order they
    are started; each writes the entry of its own path only. *)
Definition refreshAllMetadata `{Platform} (musicFolderPaths : list string)
    (w : World) : World :=
  let validFolders := List.filter validFolder musicFolderPaths in
  match validFolders with
  | [] => w
  | _ :: _ =>
    let existingData := loadExistingData (manager w) in
    let m1 := withDirty true (manager w) in
    let musicFiles := musicFilesIn (app m1) validFolders in
    let m2 :=
      foldl (fun m file => processFileIfNeeded file existingData m)
            m1 musicFiles in
    scheduleSave {| manager := m2; loop := loop w |}
  end.

Definition handleFileChange `{Platform} (filePath : string)
    (type : ChangeType) (w : World) : World :=
  let isMusicFile := isSupportedAudioFile (Js.lastSegment filePath) in
  if negb isMusicFile then w
  else
    let w1 := onManager (withDirty true) w in
    match type with
    | Delete =>
      scheduleSave
        (onManager (fun m => withCache (base.delete filePath (cache m)) m) w1)
    | Create | Modify =>
      {| manager := manager w1;
         loop := (setTimeout 500 (UpdateFile filePath) (loop w1)).2 |}
    end.

Definition cleanup (w : World) : World :=
  {| manager := withCache ∅ (withParser (parserCleanup (parser (manager w)))
                                        (manager w));
     loop := clearSaveTimeout w |}.

(** *** The event loop *)

(** The callback given to [setTimeout] in [scheduleSave]. *)
Definition saveTimerFired (w : World) : World :=
  let m := withDirty false (manager w) in
  {| manager := m;
     loop :=
       if onSaveNeeded m then
         {| now := now (loop w); timers := timers (loop w);
            nextTimerId := nextTimerId (loop w);
            saveCalls := saveCalls (loop w)
                           ++ [(now (loop w), exportToSettings m)] |}
       else loop w |}.

(** The callback given to [setTimeout] in [handleFileChange]. *)
Definition updateTimerFired `{Platform} (filePath : string) (w : World)
  : World :=
  tryCatch
    (match getAbstractFileByPath (app (manager w)) filePath with
     | Some (IsFile file) =>
       bindC (extractFileMetadata file (manager w)) (fun r =>
         Normal (scheduleSave (onManager (store filePath r) w)))
     | _ => Normal w
     end)
    w.

Definition fire `{Platform} (job : TimerTask) (w : World) : World :=
  match job with
  | UpdateFile filePath => updateTimerFired filePath w
  | NotifySave => saveTimerFired w
  end.

(** Fires the timers due by [deadline], earliest first; the clock reads the
    due time of a timer while its callback runs. *)
Fixpoint runTimers `{Platform} (fuel : nat) (deadline : nat) (w : World)
  : World :=
  match fuel with
  | 0 => w
  | S fuel' =>
    match timers (loop w) with
    | [] => w
    | t :: rest =>
      if due t <=? deadline then
        runTimers fuel' deadline
          (fire (task t)
                {| manager := manager w;
                   loop := withNow (Nat.max (now (loop w)) (due t))
                                   (withTimers rest (loop w)) |})
      else w
    end
  end.

(** An update timer leaves at most a save timer behind, a save timer
    nothing: twice the number of pending timers bounds the callbacks run. *)
Definition fuelFor (w : World) : nat := 2 * length (timers (loop w)).

(** [ms] milliseconds pass. *)
Definition advance `{Platform} (ms : nat) (w : World) : World :=
  let deadline := now (loop w) + ms in
  let w' := runTimers (fuelFor w) deadline w in
  {| manager := manager w'; loop := withNow deadline (loop w') |}.

(** What happens to the manager from outside. *)
Inductive Event : Type :=
  | FileChanged (filePath : string) (type : ChangeType)
  | Elapsed (ms : nat)
  | RefreshAll (musicFolderPaths : list string)
  | Initialize (settings : PluginSettings)
  | SetSaveCallback
  | Cleanup.

Definition step `{Platform} (w : World) (e : Event) : World :=
  match e with
  | FileChanged filePath type => handleFileChange filePath type w
  | Elapsed ms => advance ms w
  | RefreshAll musicFolderPaths => refreshAllMetadata musicFolderPaths w
  | Initialize settings => onManager (initializeFromSettings settings) w
  | SetSaveCallback => onManager setSaveCallback w
  | Cleanup => cleanup w
  end.

Definition run `{Platform} (w : World) (events : list Event) : World :=
  foldl step w events.

(** ** Records and Maps as shared objects

    Above, a record in the cache is its value.  What [getAllMetadata] hands
    out is a new [Map] holding the very record objects of the cache; to say
    what a caller can do with it, objects live in a heap and are reached
    through references. *)

Module Objects.

Record Heap : Type := {
  records : gmap nat TrackMetadata;
  maps : gmap nat (gmap string nat)
}.

(** [this.cache] holds a reference to a [Map]. *)
Record Manager : Type := { cache : nat }.

(** [new Map(source)]. *)
Definition newMap (source : nat) (h : Heap) : nat * Heap :=
  let r := fresh (dom (maps h)) in
  (r, {| records := records h;
         maps := <[r := default ∅ (maps h !! source)]> (maps h) |}).

Definition getAllMetadata (m : Manager) (h : Heap) : nat * Heap :=
  newMap (cache m) h.

(** [this.cache.get(filePath) || null]: a reference to the record. *)
Definition getMetadata (filePath : string) (m : Manager) (h : Heap)
  : option nat :=
  maps h !! cache m ≫= (fun entries => entries !! filePath).

(** What the holder of a reference can do to the object behind it. *)
Inductive Mutation : Type :=
  | MapSet (target : nat) (key : string) (value : nat)
  | MapDelete (target : nat) (key : string)
  | MapClear (target : nat)
  | RecordAssign (target : nat) (fields : TrackMetadata).

Definition mutate (h : Heap) (mu : Mutation) : Heap :=
  match mu with
  | MapSet target key value =>
    {| records := records h;
       maps := alter (fun entries => <[key := value]> entries) target (maps h) |}
  | MapDelete target key =>
    {| records := records h;
       maps := alter (fun entries => base.delete key entries) target (maps h) |}
  | MapClear target =>
    {| records := records h; maps := alter (fun _ => ∅) target (maps h) |}
  | RecordAssign target fields =>
    {| records := alter (fun _ => fields) target (records h);
       maps := maps h |}
  end.

(** The Map a mutation acts on, if it acts on one. *)
Definition mapTarget (mu : Mutation) : option nat :=
  match mu with
  | MapSet target _ _ | MapDelete target _ | MapClear target => Some target
  | RecordAssign _ _ => None
  end.

(** The cache as the manager sees it: every path with the fields of its
    record. *)
Definition liveCache (m : Manager) (h : Heap) : gmap string TrackMetadata :=
  omap (fun r => records h !! r) (default ∅ (maps h !! cache m)).

End Objects.

(** ** A small library, for the examples *)

Module Sample.

Definition endsWith (s suffix : string) : bool :=
  Js.startsWith (String.rev s) (String.rev suffix).

Definition bytesOf (s : string) : list Byte.byte := String.list_byte_of_string s.

Definition txxxOnly : mm.IAudioMetadata := {|
  mm.common := {| mm.title := Some "Song"; mm.artist := Some "Band";
                  mm.album := None; mm.picture := None;
                  mm.lyrics := JUndefined |};
  mm.native := Some {|
    mm.id3v2 := Some [
      {| mm.id := "TIT2"; mm.value := JStr "Song" |};
      {| mm.id := "TXXX";
         mm.value := JObj [("description", JStr "Lyrics-XXX");
                           ("text", JStr ("line1" +:+ newline +:+ "line2"))] |}];
    mm.vorbis := None; mm.apev2 := None; mm.iTunes := None;
    mm.mp4 := None; mm.asf := None |}
|}.

Definition storedIncomplete : StoredMetadata := {|
  stored_title := Some EmptyString; stored_artist := Some "A";
  stored_album := Some "B"; stored_cover := None; stored_lyrics := None
|}.

Definition storedComplete : StoredMetadata := {|
  stored_title := Some "Kept"; stored_artist := Some "A";
  stored_album := Some "B"; stored_cover := None; stored_lyrics := None
|}.

(** Buffers that start with "ID3" decode to [txxxOnly], others are
    rejected; ".mp3" and ".flac" names are audio files; the data file
    holds one incomplete and one complete record. *)
Definition platform : Platform := {|
  parseBuffer buffer :=
    if Js.startsWith (String.string_of_list_byte buffer) "ID3"
    then Normal txxxOnly else Thrown;
  isSupportedAudioFile fileName :=
    endsWith (Js.toLowerCase fileName) ".mp3"
    || endsWith (Js.toLowerCase fileName) ".flac";
  normalizePath p := p;
  JSON_parse content :=
    if decide (content = "data")
    then Normal {| stored_metadata :=
                     Some {[ "Music/a.mp3" := storedIncomplete;
                             "Music/d.mp3" := storedComplete ]} |}
    else Thrown
|}.

Definition file (p n b : string) : TFile :=
  {| path := p; name := n; basename := b |}.

Definition a_mp3 : TFile := file "Music/a.mp3" "a.mp3" "a".
Definition a_lrc : TFile := file "Music/a.lrc" "a.lrc" "a".
Definition b_mp3 : TFile := file "Music/b.mp3" "b.mp3" "b".
Definition b_lrc : TFile := file "Music/b.lrc" "b.lrc" "b".
Definition c_mp3 : TFile := file "Music/c.mp3" "c.mp3" "c".
Definition d_mp3 : TFile := file "Music/d.mp3" "d.mp3" "d".
Definition e_mp3 : TFile := file "Music/e.mp3" "e.mp3" "e".
Definition data_json : TFile :=
  file ".obsidian/plugins/albus-status-bar-music/data.json" "data.json" "data".

Definition files : list TFile :=
  [a_mp3; a_lrc; b_mp3; b_lrc; c_mp3; d_mp3; e_mp3; data_json].

(** [a.mp3] decodes, [b.mp3] does not, [c.mp3] and [e.mp3] cannot be read;
    [a.lrc] and [b.lrc] hold lyrics. *)
Definition vault : Vault := {|
  configDir := ".obsidian";
  getFiles := files;
  getAbstractFileByPath p :=
    if decide (p = "Music") then Some IsFolder
    else IsFile <$> List.find (fun f => bool_decide (path f = p)) files;
  readBinary f :=
    if decide (path f = "Music/c.mp3") then Thrown
    else if decide (path f = "Music/e.mp3") then Thrown
    else if decide (path f = "Music/b.mp3") then Normal (bytesOf "garbage")
    else Normal (bytesOf "ID3 tags and frames");
  read f :=
    if decide (path f = "Music/a.lrc") then Normal "[00:01.00]la la"
    else if decide (path f = "Music/b.lrc") then Normal "[00:02.00]na na"
    else if decide (path f = data_json.(path)) then Normal "data"
    else Thrown
|}.

Definition record (t : string) (l : option string) : TrackMetadata :=
  {| title := t; artist := "A"; album := "B"; cover := None; lyrics := l |}.

(** A manager that has a callback and one cached record. *)
Definition world : World :=
  onManager (fun m => withCache {[ "Music/a.mp3" := record "T" None ]}
                                (setSaveCallback m))
            (newWorld vault).

End Sample.

(** ** A second library: pictures, and no data file *)

Module Album.

Definition front : mm.IPicture :=
  {| mm.format := "image/png"; mm.data := Sample.bytesOf "front" |}.

Definition back : mm.IPicture :=
  {| mm.format := "image/jpeg"; mm.data := Sample.bytesOf "back" |}.

(** No title, an empty artist, two pictures, and lyrics in [common]. *)
Definition pictured : mm.IAudioMetadata := {|
  mm.common := {| mm.title := None; mm.artist := Some EmptyString;
                  mm.album := Some "Album"; mm.picture := Some [front; back];
                  mm.lyrics := JArr [JStr " "; JObj [("text", JStr " la ")]] |};
  mm.native := None
|}.

(** A TXXX frame whose description is a number, in front of one that holds
    lyrics, and lyrics in the Vorbis comments. *)
Definition numbered : mm.IAudioMetadata := {|
  mm.common := {| mm.title := Some "Song"; mm.artist := Some "Band";
                  mm.album := None; mm.picture := None;
                  mm.lyrics := JUndefined |};
  mm.native := Some {|
    mm.id3v2 := Some [
      {| mm.id := "TXXX";
         mm.value := JObj [("description", JNum 1); ("text", JStr "one")] |};
      {| mm.id := "TXXX";
         mm.value := JObj [("description", JStr "lyrics");
                           ("text", JStr "from the frame")] |}];
    mm.vorbis := Some [{| mm.id := "LYRICS";
                          mm.value := JStr "from the comments" |}];
    mm.apev2 := None; mm.iTunes := None; mm.mp4 := None; mm.asf := None |}
|}.

(** Every buffer decodes to [pictured]; the rest is as in [Sample]. *)
Definition platform : Platform := {|
  parseBuffer buffer := Normal pictured;
  isSupportedAudioFile := @isSupportedAudioFile Sample.platform;
  normalizePath p := p;
  JSON_parse := @JSON_parse Sample.platform
|}.

(** The vault of [Sample] with another configuration folder: there is no
    data file. *)
Definition firstRun : Vault := {|
  configDir := ".config";
  getFiles := getFiles Sample.vault;
  getAbstractFileByPath := getAbstractFileByPath Sample.vault;
  readBinary := readBinary Sample.vault;
  read := read Sample.vault
|}.

End Album.

(** ** The specification's vocabulary *)

(** [getAllMetadata]: [new Map(this.cache)], as a value. *)
Definition getAllMetadata (m : MetadataManager) : gmap string TrackMetadata :=
  cache m.

(** The embedded lyrics sources, as section 4.1 numbers them (2 to 8, the
    last one split in two). *)
Inductive LyricsSource : Type :=
  | CommonLyrics | USLT | SYLT | TXXX | Vorbis | APEv2 | ITunesMP4 | ASF.

Definition sourceOrder : list LyricsSource :=
  [CommonLyrics; USLT; SYLT; TXXX; Vorbis; APEv2; ITunesMP4; ASF].

(** What one source yields on its own. *)
Definition lyricsFrom (source : LyricsSource) (md : mm.IAudioMetadata)
  : Completion (option string) :=
  match source with
  | CommonLyrics => Normal (lyricsOfCommon (mm.lyrics (mm.common md)))
  | USLT => Normal (inContainer (nativeTags mm.id3v2 md) None lyricsOfUSLT)
  | SYLT => Normal (inContainer (nativeTags mm.id3v2 md) None lyricsOfSYLT)
  | TXXX => inContainer (nativeTags mm.id3v2 md) (Normal None) lyricsOfTXXX
  | Vorbis => Normal (inContainer (nativeTags mm.vorbis md) None lyricsOfVorbis)
  | APEv2 => Normal (inContainer (nativeTags mm.apev2 md) None lyricsOfApev2)
  | ITunesMP4 =>
    Normal (inContainer (match nativeTags mm.iTunes md with
                         | Some ts => Some ts
                         | None => nativeTags mm.mp4 md
                         end) None lyricsOfITunes)
  | ASF => Normal (inContainer (nativeTags mm.asf md) None lyricsOfAsf)
  end.

(** The sources are asked one after the other; the first that yields
    lyrics wins and the ones behind it are not asked. *)
Fixpoint firstMatch (sources : list LyricsSource) (md : mm.IAudioMetadata)
  : Completion (option string) :=
  match sources with
  | [] => Normal None
  | source :: rest =>
    bindC (lyricsFrom source md) (fun found =>
      match found with
      | Some text => Normal (Some text)
      | None => firstMatch rest md
      end)
  end.


(** Section 4.4: a field is "present and non-empty". *)
Definition presentNonEmpty (field : option string) : Prop :=
  ∃ s, field = Some s ∧ s ≠ EmptyString.

(** Section 4.4, [needsReExtraction]: "true unless both title and artist
    are present and non-empty". *)
Definition needsReExtraction (existingRecord : StoredMetadata) : Prop :=
  ¬ (presentNonEmpty (stored_title existingRecord)
     ∧ presentNonEmpty (stored_artist existingRecord)).





Definition isSaveTimer (t : Timer) : bool :=
  match task t with NotifySave => true | UpdateFile _ => false end.

Definition pendingSaves (w : World) : list Timer :=
  List.filter isSaveTimer (timers (loop w)).

(** What holds of the timers in every world the manager gets into: handles
    are not reused, and the pending save timers are the timers that
    [saveTimeout] names. *)
Record wellFormed (w : World) : Prop := {
  handlesDistinct : NoDup (timerId <$> timers (loop w));
  handlesIssued : ∀ t, t ∈ timers (loop w) → timerId t < nextTimerId (loop w);
  saveHandleIssued :
    ∀ h, saveTimeout (manager w) = Some h → h < nextTimerId (loop w);
  saveTimerNamed :
    ∀ t, t ∈ timers (loop w) →
         (task t = NotifySave ↔ saveTimeout (manager w) = Some (timerId t));
  queueSorted : StronglySorted (fun t u => due t ≤ due u) (timers (loop w))
}.

(** The callbacks a pending timer can still cause: an update timer its own
    and that of the save timer it sets, a save timer its own. *)
Definition timerWeight (ts : list Timer) : nat :=
  foldr (fun t total => (if isSaveTimer t then 1 else 2) + total) 0 ts.



(** Every URL in the parser's registry is one of those handed out so
    far. *)
Definition registryIssued (p : MetadataParser) : Prop :=
  ∀ url, is_Some (blobUrls p !! url) →
         ∃ k, k < issued p ∧ url = createObjectURL k.

(** * Properties *)

(** ** Strings *)

Lemma nonEmpty_true (s : string) : Js.nonEmpty s = true ↔ s ≠ EmptyString.
Proof. destruct s; simpl; split; congruence. Qed.

Lemma nonEmpty_trim (s : string) :
  Js.nonEmpty (Js.trim s) = true → Js.nonEmpty s = true.
Proof. destruct s; [discriminate | reflexivity]. Qed.

(** ** The parser *)

Section Parser.
Context `{Platform}.

Lemma extractMetadata_decoded (arrayBuffer : list Byte.byte)
    (lrc : option string) (p : MetadataParser) (md : mm.IAudioMetadata) :
  parseBuffer arrayBuffer = Normal md →
  lyrics (extractMetadata arrayBuffer lrc p).1
  = orText lrc (extractLyrics md).
Proof.
  intros Hparse. unfold extractMetadata. rewrite Hparse. simpl.
  destruct (extractCover _ p). reflexivity.
Qed.

Lemma extractMetadata_rejected (arrayBuffer : list Byte.byte)
    (lrc : option string) (p : MetadataParser) :
  parseBuffer arrayBuffer = Thrown →
  extractMetadata arrayBuffer lrc p = (DEFAULT_METADATA, p).
Proof. intros Hparse. unfold extractMetadata. now rewrite Hparse. Qed.

End Parser.

(** C2. When the decoder rejects the buffer, [extractMetadata] returns the
    placeholder record: "Unknown Title", "Unknown Artist", "Unknown Album",
    no cover and no lyrics, whatever the sidecar text; the parser registers
    nothing.  The function returns a record on every input, it has no
    exceptional outcome. *)
Theorem extractMetadata_decode_failure `{Platform}
    (arrayBuffer : list Byte.byte) (lyricsFromLrc : option string)
    (p : MetadataParser) :
  parseBuffer arrayBuffer = Thrown →
  extractMetadata arrayBuffer lyricsFromLrc p
  = ({| title := "Unknown Title"; artist := "Unknown Artist";
        album := "Unknown Album"; cover := None; lyrics := None |}, p).
Proof. intros Hparse. now rewrite extractMetadata_rejected. Qed.

Lemma extractMetadata_decode_failure_witness :
  @parseBuffer Sample.platform (Sample.bytesOf "garbage") = Thrown
  ∧ @extractMetadata Sample.platform (Sample.bytesOf "garbage")
      (Some "[00:02.00]na na") (parser (manager Sample.world))
    = ({| title := "Unknown Title"; artist := "Unknown Artist";
          album := "Unknown Album"; cover := None; lyrics := None |},
       parser (manager Sample.world)).
Proof.
  split; [reflexivity |].
  apply (@extractMetadata_decode_failure Sample.platform). reflexivity.
Defined.

(** ** Sidecar lyrics *)

Section Sidecar.
Context `{Platform}.

Lemma lyricsFromLrcFile_found (vault : Vault) (file lrcFile : TFile)
    (text : string) :
  getAbstractFileByPath vault (Js.withExtension ".lrc" (path file))
  = Some (IsFile lrcFile) →
  read vault lrcFile = Normal text →
  lyricsFromLrcFile vault file
  = if Js.nonEmpty (Js.trim text) then Some text else None.
Proof.
  intros Hfile Hread. unfold lyricsFromLrcFile. rewrite Hfile, Hread. simpl.
  destruct (Js.nonEmpty (Js.trim text)) eqn:Htrim.
  - now rewrite (nonEmpty_trim _ Htrim).
  - now rewrite andb_false_r.
Qed.

Lemma lyricsFromLrcFile_unreadable (vault : Vault) (file lrcFile : TFile) :
  getAbstractFileByPath vault (Js.withExtension ".lrc" (path file))
  = Some (IsFile lrcFile) →
  read vault lrcFile = Thrown →
  lyricsFromLrcFile vault file = None.
Proof.
  intros Hfile Hread. unfold lyricsFromLrcFile. now rewrite Hfile, Hread.
Qed.

Lemma lyricsFromLrcFile_missing (vault : Vault) (file : TFile) :
  (∀ lrcFile,
     getAbstractFileByPath vault (Js.withExtension ".lrc" (path file))
     ≠ Some (IsFile lrcFile)) →
  lyricsFromLrcFile vault file = None.
Proof.
  intros Hnone. unfold lyricsFromLrcFile.
  destruct (getAbstractFileByPath vault _) as [[lrcFile|]|] eqn:E;
    [now destruct (Hnone lrcFile) | reflexivity | reflexivity].
Qed.

End Sidecar.

(** C3, as the code has it.  When the audio file can be read and decodes:
    the text of the [.lrc] file next to it, if there is one and it is not
    blank, becomes the lyrics as it stands, whatever the tags hold; with no
    such file, an unreadable one or a blank one, the lyrics are those of
    the embedded chain [extractLyrics]. *)
Theorem sidecar_lyrics_when_decoded `{Platform} (file : TFile)
    (m : MetadataManager) (arrayBuffer : list Byte.byte)
    (md : mm.IAudioMetadata) :
  readBinary (app m) file = Normal arrayBuffer →
  parseBuffer arrayBuffer = Normal md →
  ∃ r p,
    extractFileMetadata file m = Normal (r, p)
    ∧ (∀ lrcFile text,
         getAbstractFileByPath (app m) (Js.withExtension ".lrc" (path file))
         = Some (IsFile lrcFile) →
         read (app m) lrcFile = Normal text →
         Js.trim text ≠ EmptyString →
         lyrics r = Some text)
    ∧ ((∀ lrcFile,
          getAbstractFileByPath (app m) (Js.withExtension ".lrc" (path file))
          ≠ Some (IsFile lrcFile)) →
       lyrics r = extractLyrics md)
    ∧ (∀ lrcFile,
         getAbstractFileByPath (app m) (Js.withExtension ".lrc" (path file))
         = Some (IsFile lrcFile) →
         read (app m) lrcFile = Thrown →
         lyrics r = extractLyrics md)
    ∧ (∀ lrcFile text,
         getAbstractFileByPath (app m) (Js.withExtension ".lrc" (path file))
         = Some (IsFile lrcFile) →
         read (app m) lrcFile = Normal text →
         Js.trim text = EmptyString →
         lyrics r = extractLyrics md).
Proof.
  intros Hread Hparse.
  eexists _, _. split.
  { unfold extractFileMetadata. rewrite Hread. simpl.
    rewrite (surjective_pairing (extractMetadata _ _ _)). reflexivity. }
  rewrite (extractMetadata_decoded _ _ _ _ Hparse).
  repeat split.
  - intros lrcFile text Hfile Htext Hblank.
    rewrite (lyricsFromLrcFile_found _ _ _ _ Hfile Htext).
    apply nonEmpty_true in Hblank. rewrite Hblank.
    unfold orText. simpl. now rewrite (nonEmpty_trim _ Hblank).
  - intros Hnone. now rewrite lyricsFromLrcFile_missing.
  - intros lrcFile Hfile Htext.
    now rewrite (lyricsFromLrcFile_unreadable _ _ _ Hfile Htext).
  - intros lrcFile text Hfile Htext Hblank.
    rewrite (lyricsFromLrcFile_found _ _ _ _ Hfile Htext), Hblank.
    reflexivity.
Qed.

Lemma sidecar_lyrics_when_decoded_witness :
  ∃ r p,
    @extractFileMetadata Sample.platform Sample.a_mp3 (manager Sample.world)
    = Normal (r, p)
    ∧ lyrics r = Some "[00:01.00]la la".
Proof.
  destruct (@sidecar_lyrics_when_decoded Sample.platform Sample.a_mp3
              (manager Sample.world) (Sample.bytesOf "ID3 tags and frames")
              Sample.txxxOnly eq_refl eq_refl)
    as (r & p & Hr & Hsidecar & _).
  exists r, p. split; [exact Hr |].
  apply (Hsidecar Sample.a_lrc); [reflexivity | reflexivity | discriminate].
Defined.

(** C3 fails as stated: [b.mp3] has a sidecar file with lyrics in it, but
    its bytes do not decode, and the record has no lyrics. *)
Lemma sidecar_lyrics_lost_when_undecodable :
  getAbstractFileByPath Sample.vault
    (Js.withExtension ".lrc" (path Sample.b_mp3))
  = Some (IsFile Sample.b_lrc)
  ∧ read Sample.vault Sample.b_lrc = Normal "[00:02.00]na na"
  ∧ Js.trim "[00:02.00]na na" ≠ EmptyString
  ∧ ∃ r p,
      @extractFileMetadata Sample.platform Sample.b_mp3 (manager Sample.world)
      = Normal (r, p)
      ∧ lyrics r = None
      ∧ lyrics r ≠ Some "[00:02.00]na na".
Proof.
  repeat split; try discriminate.
  eexists _, _. repeat split. discriminate.
Qed.

(** ** Snapshots *)

Lemma exportToSettings_cache (m : MetadataManager) :
  exportToSettings m = {| metadata := Some (cache m) |}.
Proof.
  unfold exportToSettings. do 2 f_equal.
  apply (map_fold_weak_ind (fun r c => r = c)); [reflexivity |].
  now intros path r c acc _ ->.
Qed.

Lemma initializeFromSettings_cache (entries : gmap string TrackMetadata)
    (m : MetadataManager) :
  cache (initializeFromSettings {| metadata := Some entries |} m)
  = fullMetadata <$> entries.
Proof.
  unfold initializeFromSettings. simpl.
  match goal with
  | |- context [map_fold ?f ?b entries] =>
    enough (cache (map_fold f b entries) = fullMetadata <$> entries) as ->
  end; [reflexivity |].
  apply (map_fold_weak_ind (fun acc c => cache acc = fullMetadata <$> c)).
  - simpl. now rewrite fmap_empty.
  - intros path r c acc _ IH. simpl. now rewrite IH, fmap_insert.
Qed.




(** ** Change events *)

(** C10. A change event for a path whose last segment the suffix filter
    rejects leaves the world as it was, whatever the kind of change: the
    cache, the dirty flag, the timers and everything else. *)
Theorem handleFileChange_unsupported `{Platform} (filePath : string)
    (type : ChangeType) (w : World) :
  isSupportedAudioFile (Js.lastSegment filePath) = false →
  handleFileChange filePath type w = w.
Proof. intros Hfilter. unfold handleFileChange. now rewrite Hfilter. Qed.

Lemma handleFileChange_unsupported_witness :
  @isSupportedAudioFile Sample.platform (Js.lastSegment "notes/todo.md")
  = false
  ∧ @handleFileChange Sample.platform "notes/todo.md" Delete Sample.world
    = Sample.world.
Proof.
  split; [reflexivity |].
  apply (@handleFileChange_unsupported Sample.platform). reflexivity.
Defined.

(** ** Timers *)

#[local] Arguments Nat.leb : simpl never.

Lemma enqueue_perm (t : Timer) (ts : list Timer) : enqueue t ts ≡ₚ t :: ts.
Proof.
  induction ts as [|u ts IH]; simpl; [reflexivity |].
  destruct (due u <=? due t); [| reflexivity].
  rewrite IH. apply Permutation_swap.
Qed.


Lemma enqueue_sorted (t : Timer) (ts : list Timer) :
  StronglySorted (fun t u => due t ≤ due u) ts →
  StronglySorted (fun t u => due t ≤ due u) (enqueue t ts).
Proof.
  induction ts as [|u ts IH]; intros Hsorted; simpl.
  - repeat constructor.
  - apply StronglySorted_inv in Hsorted as [Hts Hu].
    destruct (Nat.leb_spec (due u) (due t)) as [Hle | Hlt].
    + constructor; [now apply IH |].
      rewrite enqueue_perm. now constructor.
    + constructor; [now constructor |].
      constructor; [lia |].
      eapply Forall_impl; [exact Hu |]. simpl. intros v Hv. lia.
Qed.

Lemma filter_sorted (f : Timer → bool) (ts : list Timer) :
  StronglySorted (fun t u => due t ≤ due u) ts →
  StronglySorted (fun t u => due t ≤ due u) (List.filter f ts).
Proof.
  induction ts as [|u ts IH]; intros Hsorted; simpl; [constructor |].
  apply StronglySorted_inv in Hsorted as [Hts Hu].
  destruct (f u); [| now apply IH].
  constructor; [now apply IH |].
  apply Forall_forall. intros v Hv%list_elem_of_In%filter_In.
  rewrite Forall_forall in Hu. apply Hu, list_elem_of_In, Hv.
Qed.

Lemma timerWeight_enqueue (t : Timer) (ts : list Timer) :
  timerWeight (enqueue t ts) = timerWeight [t] + timerWeight ts.
Proof.
  induction ts as [|u ts IH]; simpl; [lia |].
  destruct (due u <=? due t); simpl; [| lia].
  simpl in IH. rewrite IH. lia.
Qed.

Lemma timerWeight_filter (f : Timer → bool) (ts : list Timer) :
  timerWeight (List.filter f ts) ≤ timerWeight ts.
Proof.
  induction ts as [|u ts IH]; simpl; [lia |].
  destruct (f u); simpl; lia.
Qed.

Lemma timerWeight_length (ts : list Timer) :
  timerWeight ts ≤ 2 * length ts.
Proof.
  induction ts as [|u ts IH]; simpl; [lia |].
  destruct (isSaveTimer u); lia.
Qed.

Lemma elem_of_enqueue (t u : Timer) (ts : list Timer) :
  u ∈ enqueue t ts ↔ u = t ∨ u ∈ ts.
Proof. rewrite enqueue_perm. apply elem_of_cons. Qed.

Lemma elem_of_cleared (h : nat) (l : EventLoop) (t : Timer) :
  t ∈ timers (clearTimeout h l) ↔ t ∈ timers l ∧ timerId t ≠ h.
Proof.
  unfold clearTimeout. simpl. rewrite list_elem_of_In, filter_In.
  rewrite <- list_elem_of_In, negb_true_iff, Nat.eqb_neq. reflexivity.
Qed.

Lemma NoDup_handles_filter (f : Timer → bool) (ts : list Timer) :
  NoDup (timerId <$> ts) → NoDup (timerId <$> List.filter f ts).
Proof.
  induction ts as [|u ts IH]; simpl; [trivial |].
  rewrite NoDup_cons. intros [Hu Hts].
  destruct (f u); simpl; [| now apply IH].
  apply NoDup_cons. split; [| now apply IH].
  intros Hin. apply Hu. apply list_elem_of_fmap in Hin as (v & -> & Hv).
  apply list_elem_of_fmap. exists v. split; [reflexivity |].
  apply list_elem_of_In in Hv. apply filter_In in Hv as [Hv _].
  now apply list_elem_of_In.
Qed.

Lemma elem_of_clearSaveTimeout (w : World) (t : Timer) :
  t ∈ timers (clearSaveTimeout w)
  ↔ t ∈ timers (loop w) ∧ saveTimeout (manager w) ≠ Some (timerId t).
Proof.
  unfold clearSaveTimeout. destruct (saveTimeout (manager w)) as [h|].
  - rewrite elem_of_cleared. split; intros [Ht Hne]; (split; [exact Ht |]);
      congruence.
  - split; [intros Ht; split; [exact Ht | discriminate] | now intros [Ht _]].
Qed.

Lemma clearSaveTimeout_fields (w : World) :
  now (clearSaveTimeout w) = now (loop w)
  ∧ nextTimerId (clearSaveTimeout w) = nextTimerId (loop w)
  ∧ saveCalls (clearSaveTimeout w) = saveCalls (loop w).
Proof.
  unfold clearSaveTimeout. now destruct (saveTimeout (manager w)).
Qed.

(** The timer [scheduleSave] sets. *)
Lemma scheduleSave_loop (w : World) :
  loop (scheduleSave w)
  = {| now := now (loop w);
       timers := enqueue {| timerId := nextTimerId (loop w);
                            due := now (loop w) + 500;
                            task := NotifySave |}
                         (timers (clearSaveTimeout w));
       nextTimerId := S (nextTimerId (loop w));
       saveCalls := saveCalls (loop w) |}.
Proof.
  unfold scheduleSave, setTimeout. simpl.
  destruct (clearSaveTimeout_fields w) as (-> & -> & ->). reflexivity.
Qed.

Lemma scheduleSave_manager (w : World) :
  manager (scheduleSave w)
  = withSaveTimeout (Some (nextTimerId (loop w))) (manager w).
Proof.
  unfold scheduleSave, setTimeout. simpl.
  now destruct (clearSaveTimeout_fields w) as (_ & -> & _).
Qed.

Lemma wellFormed_cleared (w : World) :
  wellFormed w →
  NoDup (timerId <$> timers (clearSaveTimeout w))
  ∧ StronglySorted (fun t u => due t ≤ due u) (timers (clearSaveTimeout w))
  ∧ (∀ t, t ∈ timers (clearSaveTimeout w) →
          timerId t < nextTimerId (loop w) ∧ task t ≠ NotifySave).
Proof.
  intros [Hdistinct Hissued Hsave Hnamed Hsorted]. split; [| split].
  - unfold clearSaveTimeout. destruct (saveTimeout (manager w)); [| trivial].
    now apply NoDup_handles_filter.
  - unfold clearSaveTimeout. destruct (saveTimeout (manager w)); [| trivial].
    now apply filter_sorted.
  - intros t [Ht Hne]%elem_of_clearSaveTimeout. split; [now apply Hissued |].
    intros Htask. now apply Hne, (Hnamed t Ht).
Qed.

Lemma wellFormed_scheduleSave (w : World) :
  wellFormed w → wellFormed (scheduleSave w).
Proof.
  intros Hw.
  destruct (wellFormed_cleared w Hw) as (Hdistinct & Hsorted & Hcleared).
  split; rewrite ?scheduleSave_loop, ?scheduleSave_manager; simpl;
    [| | | | now apply enqueue_sorted].
  - rewrite enqueue_perm. simpl. apply NoDup_cons. split; [| trivial].
    intros (t & Hid & Ht)%list_elem_of_fmap.
    apply Hcleared in Ht as [Ht _]. lia.
  - intros t [-> | Ht]%elem_of_enqueue; simpl; [lia |].
    apply Hcleared in Ht as [Ht _]. lia.
  - intros h [= <-]. lia.
  - intros t [-> | Ht]%elem_of_enqueue; [easy |].
    apply Hcleared in Ht as [Ht Htask]. split; [easy |].
    intros [= Hid]. lia.
Qed.

(** After [scheduleSave] one save timer is pending, the new one, due in
    500 ms. *)
Lemma scheduleSave_pendingSaves (w : World) :
  wellFormed w →
  pendingSaves (scheduleSave w)
  = [{| timerId := nextTimerId (loop w); due := now (loop w) + 500;
        task := NotifySave |}].
Proof.
  intros Hw. destruct (wellFormed_cleared w Hw) as (_ & _ & Hcleared).
  unfold pendingSaves. rewrite scheduleSave_loop. simpl.
  induction (timers (clearSaveTimeout w)) as [|u ts IH]; simpl; [reflexivity |].
  assert (isSaveTimer u = false) as Hu.
  { destruct (Hcleared u ltac:(left)) as [_ Hu].
    unfold isSaveTimer. now destruct (task u). }
  destruct (due u <=? _); simpl; rewrite Hu.
  - apply IH. intros t Ht. apply Hcleared. now right.
  - simpl. clear IH.
    assert (List.filter isSaveTimer ts = []) as ->; [| reflexivity].
    induction ts as [|v ts IH]; simpl; [reflexivity |].
    destruct (Hcleared v ltac:(right; left)) as [_ Hv].
    unfold isSaveTimer at 1. destruct (task v); [| congruence].
    apply IH. intros t Ht. apply Hcleared.
    apply elem_of_cons in Ht as [-> | Ht]; [left | right; now right].
Qed.


(** ** What the methods leave alone *)

Section Frame.
Context `{Platform}.

Lemma processFileIfNeeded_frame (file : TFile) (existingData : StoredData)
    (m : MetadataManager) :
  let m' := processFileIfNeeded file existingData m in
  app m' = app m ∧ saveTimeout m' = saveTimeout m
  ∧ isDirty m' = isDirty m ∧ onSaveNeeded m' = onSaveNeeded m.
Proof.
  unfold processFileIfNeeded, extractFileMetadata.
  destruct (existingFor existingData file) as [e|];
    [destruct (complete e) as [[t a]|] |];
    simpl; try easy; now destruct (readBinary (app m) file).
Qed.

Lemma processFiles_frame (files : list TFile) (existingData : StoredData)
    (m : MetadataManager) :
  let m' := foldl (fun m file => processFileIfNeeded file existingData m)
                  m files in
  app m' = app m ∧ saveTimeout m' = saveTimeout m
  ∧ isDirty m' = isDirty m ∧ onSaveNeeded m' = onSaveNeeded m.
Proof.
  revert m. induction files as [|file files IH]; intros m; simpl; [easy |].
  destruct (IH (processFileIfNeeded file existingData m)) as (-> & -> & -> & ->).
  apply processFileIfNeeded_frame.
Qed.

Lemma initializeFromSettings_frame (settings : PluginSettings)
    (m : MetadataManager) :
  let m' := initializeFromSettings settings m in
  app m' = app m ∧ saveTimeout m' = saveTimeout m
  ∧ isDirty m' = isDirty m ∧ onSaveNeeded m' = onSaveNeeded m.
Proof.
  unfold initializeFromSettings. destruct (metadata settings) as [entries|];
    simpl; [| easy].
  match goal with
  | |- context [map_fold ?f ?b entries] =>
    apply (map_fold_weak_ind
             (fun acc (_ : gmap string TrackMetadata) =>
                app acc = app m ∧ saveTimeout acc = saveTimeout m
                ∧ isDirty acc = isDirty m
                ∧ onSaveNeeded acc = onSaveNeeded m) f b)
  end; simpl; easy.
Qed.

End Frame.

(** ** Well-formed worlds *)

Lemma wellFormed_newWorld (vault : Vault) : wellFormed (newWorld vault).
Proof.
  split; simpl.
  - apply NoDup_nil_2.
  - intros t Ht. inversion Ht.
  - discriminate.
  - intros t Ht. inversion Ht.
  - constructor.
Qed.

Lemma wellFormed_manager (w : World) (m' : MetadataManager) :
  saveTimeout m' = saveTimeout (manager w) →
  wellFormed w → wellFormed {| manager := m'; loop := loop w |}.
Proof.
  intros Hsave [H1 H2 H3 H4 H5]. split; simpl; rewrite ?Hsave; trivial.
Qed.

Lemma wellFormed_update_timer (w : World) (delay : nat) (filePath : string) :
  wellFormed w →
  wellFormed {| manager := manager w;
                loop := (setTimeout delay (UpdateFile filePath) (loop w)).2 |}.
Proof.
  intros [Hdistinct Hissued Hsave Hnamed Hsorted].
  split; simpl; [| | | | now apply enqueue_sorted].
  - rewrite enqueue_perm. simpl. apply NoDup_cons. split; [| trivial].
    intros (t & Hid & Ht)%list_elem_of_fmap. apply Hissued in Ht. lia.
  - intros t [-> | Ht]%elem_of_enqueue; simpl; [lia |].
    apply Hissued in Ht. lia.
  - intros h Hh. apply Hsave in Hh. lia.
  - intros t [-> | Ht]%elem_of_enqueue; [| now apply Hnamed].
    simpl. split; [discriminate |]. intros Hh%Hsave. lia.
Qed.

(** The head of the queue leaves it and the clock moves on. *)
Lemma wellFormed_pop (w : World) (t : Timer) (rest : list Timer) (n : nat) :
  timers (loop w) = t :: rest →
  wellFormed w →
  wellFormed {| manager := manager w;
                loop := withNow n (withTimers rest (loop w)) |}.
Proof.
  intros Hts [Hdistinct Hissued Hsave Hnamed Hsorted]. rewrite Hts in *.
  split; simpl; trivial.
  - simpl in Hdistinct. now apply NoDup_cons in Hdistinct as [_ Hrest].
  - intros u Hu. apply Hissued. now right.
  - intros u Hu. apply Hnamed. now right.
  - now apply StronglySorted_inv in Hsorted as [Hrest _].
Qed.


Section Reachable.
Context `{Platform}.

Lemma wellFormed_fire (job : TimerTask) (w : World) :
  wellFormed w → wellFormed (fire job w).
Proof.
  intros Hw. destruct job as [filePath|]; simpl.
  - unfold updateTimerFired.
    destruct (getAbstractFileByPath _ filePath) as [[file|]|]; simpl;
      trivial.
    destruct (extractFileMetadata file (manager w)) as [r|]; simpl; trivial.
    apply wellFormed_scheduleSave. now apply wellFormed_manager.
  - unfold saveTimerFired. destruct Hw as [H1 H2 H3 H4 H5].
    destruct (onSaveNeeded _); split; simpl; trivial.
Qed.

Lemma wellFormed_runTimers (fuel deadline : nat) (w : World) :
  wellFormed w → wellFormed (runTimers fuel deadline w).
Proof.
  revert w. induction fuel as [|fuel IH]; intros w Hw; simpl; [trivial |].
  destruct (timers (loop w)) as [|t rest] eqn:Hts; [trivial |].
  destruct (due t <=? deadline); [| trivial].
  apply IH, wellFormed_fire. now apply (wellFormed_pop w t rest).
Qed.


(** Every callback leaves less to do. *)
Lemma fire_weight (t : Timer) (rest : list Timer) (w : World) :
  timers (loop w) = rest →
  timerWeight (timers (loop (fire (task t) w))) < timerWeight (t :: rest).
Proof.
  intros <-. simpl. unfold isSaveTimer.
  destruct (task t) as [filePath|]; simpl.
  - unfold updateTimerFired.
    destruct (getAbstractFileByPath _ filePath) as [[file|]|];
      cbn [tryCatch bindC]; try lia.
    destruct (extractFileMetadata file (manager w)) as [r|];
      cbn [tryCatch bindC]; [| lia].
    rewrite scheduleSave_loop. cbn [timers]. rewrite timerWeight_enqueue.
    unfold clearSaveTimeout. simpl.
    destruct (saveTimeout (manager w)) as [h|]; simpl; [| lia].
    pose proof (timerWeight_filter
                  (fun t => negb (timerId t =? h)) (timers (loop w))). lia.
  - unfold saveTimerFired. simpl. destruct (onSaveNeeded (manager w)); simpl; lia.
Qed.

(** With fuel for every callback that can still come, the run ends with
    no timer due at the head of the queue. *)
Lemma runTimers_settled (fuel deadline : nat) (w : World) :
  timerWeight (timers (loop w)) ≤ fuel →
  match timers (loop (runTimers fuel deadline w)) with
  | [] => True
  | t :: _ => deadline < due t
  end.
Proof.
  revert w. induction fuel as [|fuel IH]; intros w Hfuel; simpl.
  - destruct (timers (loop w)) as [|t rest]; [trivial |].
    simpl in Hfuel. destruct (isSaveTimer t); lia.
  - destruct (timers (loop w)) as [|t rest] eqn:Hts; [now rewrite Hts |].
    destruct (Nat.leb_spec (due t) deadline) as [Hdue | Hdue].
    + apply IH.
      pose proof (fire_weight t rest
                    {| manager := manager w;
                       loop := withNow (Nat.max (now (loop w)) (due t))
                                       (withTimers rest (loop w)) |}
                    eq_refl). lia.
    + now rewrite Hts.
Qed.

(** The fuel [advance] takes is enough: when the time has passed, no
    pending timer is due. *)
Lemma advance_settled (ms : nat) (w : World) (t : Timer) :
  wellFormed w →
  t ∈ timers (loop (advance ms w)) →
  now (loop w) + ms < due t.
Proof.
  intros Hw Ht. unfold advance in Ht. cbn [loop timers withNow] in Ht.
  pose proof (runTimers_settled (fuelFor w) (now (loop w) + ms) w
                (timerWeight_length _)) as Hhead.
  destruct (wellFormed_runTimers (fuelFor w) (now (loop w) + ms) w Hw)
    as [_ _ _ _ Hsorted].
  destruct (timers (loop (runTimers _ _ w))) as [|u rest]; [inversion Ht |].
  apply StronglySorted_inv in Hsorted as [_ Hrest].
  apply elem_of_cons in Ht as [-> | Ht]; [exact Hhead |].
  rewrite Forall_forall in Hrest. specialize (Hrest t Ht). simpl in Hrest.
  lia.
Qed.


Lemma wellFormed_handleFileChange (filePath : string) (type : ChangeType)
    (w : World) :
  wellFormed w → wellFormed (handleFileChange filePath type w).
Proof.
  intros Hw. unfold handleFileChange.
  destruct (isSupportedAudioFile _); simpl; [| trivial].
  destruct type.
  - now apply (wellFormed_update_timer (onManager (withDirty true) w)),
              (wellFormed_manager w).
  - apply wellFormed_scheduleSave. now apply (wellFormed_manager w).
  - now apply (wellFormed_update_timer (onManager (withDirty true) w)),
              (wellFormed_manager w).
Qed.



End Reachable.

(** ** The save timer fires *)

Section Flush.
Context `{Platform}.

Lemma clearSaveTimeout_idle (w : World) :
  timers (loop w) = [] → clearSaveTimeout w = loop w.
Proof.
  intros Hts. unfold clearSaveTimeout, clearTimeout.
  destruct (saveTimeout (manager w)); [| reflexivity].
  rewrite Hts. simpl. destruct (loop w). simpl in *. now subst.
Qed.

(** With nothing but a save timer pending, the run either leaves it
    pending or runs its callback at its due time. *)
Lemma runTimers_save_only (fuel deadline : nat) (w : World) (s : Timer) :
  timers (loop w) = [s] →
  task s = NotifySave →
  now (loop w) ≤ due s →
  runTimers (S fuel) deadline w
  = if due s <=? deadline then
      {| manager := withDirty false (manager w);
         loop := {| now := due s;
                    timers := [];
                    nextTimerId := nextTimerId (loop w);
                    saveCalls :=
                      saveCalls (loop w)
                      ++ (if onSaveNeeded (manager w)
                          then [(due s,
                                 exportToSettings
                                   (withDirty false (manager w)))]
                          else []) |} |}
    else w.
Proof.
  intros Hts Htask Hnow.
  destruct w as [m [n ts next calls]]. cbn in *. subst ts.
  destruct (due s <=? deadline); [| reflexivity].
  rewrite Htask.
  destruct (onSaveNeeded m) eqn:Hcallback; destruct fuel; cbn;
    unfold saveTimerFired; cbn; rewrite ?Hcallback; cbn;
    rewrite (Nat.max_r _ _ Hnow), ?app_nil_r; reflexivity.
Qed.

Lemma advance_save_only (ms : nat) (w : World) (s : Timer) :
  timers (loop w) = [s] →
  task s = NotifySave →
  now (loop w) ≤ due s →
  advance ms w
  = if due s <=? now (loop w) + ms then
      {| manager := withDirty false (manager w);
         loop := {| now := now (loop w) + ms;
                    timers := [];
                    nextTimerId := nextTimerId (loop w);
                    saveCalls :=
                      saveCalls (loop w)
                      ++ (if onSaveNeeded (manager w)
                          then [(due s,
                                 exportToSettings
                                   (withDirty false (manager w)))]
                          else []) |} |}
    else {| manager := manager w;
            loop := withNow (now (loop w) + ms) (loop w) |}.
Proof.
  intros Hts Htask Hnow. unfold advance, fuelFor. rewrite Hts.
  change (2 * length [s]) with (S 1).
  rewrite (runTimers_save_only 1 _ w s Hts Htask Hnow).
  now destruct (due s <=? now (loop w) + ms).
Qed.

End Flush.

(** C1, as the code has it.  For a path the suffix filter accepts, a
    [delete] event removes the record at once and marks the manager dirty,
    but makes no save call itself: it goes through [scheduleSave] like any
    other change, which cancels the pending save timer and sets a new one
    500 ms ahead.  With nothing else pending and a callback set, the call is
    made when those 500 ms have passed, with a snapshot that no longer has
    the path. *)
Theorem delete_event_debounced `{Platform} (filePath : string) (w : World) :
  isSupportedAudioFile (Js.lastSegment filePath) = true →
  let w' := handleFileChange filePath Delete w in
  getAllMetadata (manager w')
  = base.delete filePath (getAllMetadata (manager w))
  ∧ getAllMetadata (manager w') !! filePath = None
  ∧ needsSave (manager w') = true
  ∧ saveCalls (loop w') = saveCalls (loop w)
  ∧ (wellFormed w →
     pendingSaves w'
     = [{| timerId := nextTimerId (loop w); due := now (loop w) + 500;
           task := NotifySave |}])
  ∧ (timers (loop w) = [] →
     onSaveNeeded (manager w) = true →
     ∀ ms,
       saveCalls (loop (advance ms w'))
       = if 500 <=? ms then
           saveCalls (loop w)
           ++ [(now (loop w) + 500,
                {| metadata :=
                     Some (base.delete filePath (cache (manager w))) |})]
         else saveCalls (loop w)).
Proof.
  intros Hfilter w'. subst w'. unfold handleFileChange. rewrite Hfilter.
  cbn [negb].
  set (w1 := onManager _ (onManager _ w)).
  assert (loop w1 = loop w) as Hloop by reflexivity.
  rewrite scheduleSave_manager, scheduleSave_loop, Hloop.
  repeat split.
  - simpl. apply lookup_delete_eq.
  - intros Hw. apply (scheduleSave_pendingSaves w1).
    now apply (wellFormed_manager w).
  - intros Hidle Hcallback ms.
    rewrite (advance_save_only ms (scheduleSave w1)
               {| timerId := nextTimerId (loop w);
                  due := now (loop w) + 500; task := NotifySave |}).
    + rewrite scheduleSave_loop, scheduleSave_manager, Hloop. simpl.
      rewrite Hcallback, exportToSettings_cache. simpl.
      destruct (Nat.leb_spec (now (loop w) + 500) (now (loop w) + ms));
        destruct (Nat.leb_spec 500 ms); try lia; reflexivity.
    + rewrite scheduleSave_loop, clearSaveTimeout_idle by exact Hidle.
      simpl. now rewrite Hidle.
    + reflexivity.
    + rewrite scheduleSave_loop. simpl. lia.
Qed.

Lemma delete_event_debounced_witness :
  @isSupportedAudioFile Sample.platform (Js.lastSegment "Music/a.mp3") = true
  ∧ getAllMetadata
      (manager (@handleFileChange Sample.platform "Music/a.mp3" Delete
                  Sample.world)) !! "Music/a.mp3" = None
  ∧ saveCalls
      (loop (@advance Sample.platform 500
               (@handleFileChange Sample.platform "Music/a.mp3" Delete
                  Sample.world)))
    = [(500, {| metadata := Some (base.delete "Music/a.mp3"
                                    (cache (manager Sample.world))) |})].
Proof.
  destruct (@delete_event_debounced Sample.platform "Music/a.mp3"
              Sample.world eq_refl) as (_ & Hgone & _ & _ & _ & Hflush).
  split; [reflexivity |]. split; [exact Hgone |].
  exact (Hflush eq_refl eq_refl 500).
Defined.

(** C1 fails as stated: the [delete] event for a cached audio file makes no
    save call, neither during the call nor in the 499 ms after it; and a
    cached record under a path that the filter rejects stays in the
    cache. *)
Lemma delete_event_not_immediate :
  cache (manager Sample.world) !! "Music/a.mp3"
  = Some (Sample.record "T" None)
  ∧ saveCalls (loop (@handleFileChange Sample.platform "Music/a.mp3" Delete
                       Sample.world)) = []
  ∧ saveCalls (loop (@advance Sample.platform 499
                       (@handleFileChange Sample.platform "Music/a.mp3" Delete
                          Sample.world))) = []
  ∧ let w := onManager (withCache {[ "notes/a.txt" := Sample.record "T" None ]})
                       Sample.world in
    getAllMetadata (manager (@handleFileChange Sample.platform "notes/a.txt"
                               Delete w)) !! "notes/a.txt"
    = Some (Sample.record "T" None).
Proof. repeat split. Qed.

(** ** Bursts of [modify] events *)

Lemma filter_all {A : Type} (f : A → bool) (l : list A) :
  (∀ a, a ∈ l → f a = true) → List.filter f l = l.
Proof.
  induction l as [|a l IH]; intros Hall; simpl; [reflexivity |].
  rewrite (Hall a) by left. f_equal. apply IH. intros b Hb. apply Hall.
  now right.
Qed.

Lemma filter_none {A : Type} (f : A → bool) (l : list A) :
  (∀ a, a ∈ l → f a = false) → List.filter f l = [].
Proof.
  induction l as [|a l IH]; intros Hall; simpl; [reflexivity |].
  rewrite (Hall a) by left. apply IH. intros b Hb. apply Hall. now right.
Qed.

(** In a well-formed world [clearSaveTimeout] cancels the save timers and
    nothing else. *)
Lemma clearSaveTimeout_timers (w : World) :
  wellFormed w →
  timers (clearSaveTimeout w)
  = List.filter (fun t => negb (isSaveTimer t)) (timers (loop w)).
Proof.
  intros [_ _ _ Hnamed _]. unfold clearSaveTimeout.
  destruct (saveTimeout (manager w)) as [h|] eqn:Hh; simpl.
  - apply filter_ext_in. intros t Ht%list_elem_of_In.
    specialize (Hnamed t Ht). unfold isSaveTimer. f_equal.
    destruct (Nat.eqb_spec (timerId t) h) as [<- | Hne].
    + now rewrite (proj2 Hnamed eq_refl).
    + destruct (task t); [reflexivity |].
      destruct Hnamed as [Hnamed _]. specialize (Hnamed eq_refl). congruence.
  - symmetry. apply filter_all. intros t Ht. specialize (Hnamed t Ht).
    unfold isSaveTimer. destruct (task t); [reflexivity |].
    destruct Hnamed as [Hnamed _]. now specialize (Hnamed eq_refl).
Qed.

Section Burst.
Context `{Platform}.

Lemma runTimers_idle (fuel deadline : nat) (w : World) :
  (∀ t, t ∈ timers (loop w) → deadline < due t) →
  runTimers fuel deadline w = w.
Proof.
  intros Hdue. destruct fuel as [|fuel]; simpl; [reflexivity |].
  destruct (timers (loop w)) as [|t rest]; [reflexivity |].
  specialize (Hdue t ltac:(left)).
  destruct (Nat.leb_spec (due t) deadline); [lia | reflexivity].
Qed.

Lemma advance_idle (ms : nat) (w : World) :
  (∀ t, t ∈ timers (loop w) → now (loop w) + ms < due t) →
  advance ms w
  = {| manager := manager w;
       loop := withNow (now (loop w) + ms) (loop w) |}.
Proof. intros Hdue. unfold advance. now rewrite runTimers_idle. Qed.





End Burst.

Section Settle.
Context `{Platform}.





End Settle.

Section Debounce.
Context `{Platform}.


End Debounce.




(** ** The lyrics chain *)

#[local] Arguments String.append !s1 s2 : simpl nomatch.

Lemma startsWith_spec (s prefix : string) :
  Js.startsWith s prefix = true ↔ ∃ rest, s = prefix +:+ rest.
Proof.
  revert s. induction prefix as [|p prefix IH]; intros [|c s]; simpl.
  - split; [now exists EmptyString | reflexivity].
  - split; [now exists (String c s) | reflexivity].
  - split; [discriminate | now intros [rest Hrest]].
  - destruct (decide (p = c)) as [-> | Hne].
    + rewrite IH. split; intros [rest Hrest]; exists rest; simpl in *;
        congruence.
    + split; [discriminate | intros [rest Hrest]; simpl in *; congruence].
Qed.





Lemma extractLyricsBody_chain (md : mm.IAudioMetadata) :
  extractLyricsBody md = firstMatch sourceOrder md.
Proof.
  unfold extractLyricsBody, sourceOrder, firstMatch, lyricsFrom, orContinue,
    lyricsOfId3v2, orContinue, inContainer.
  destruct (lyricsOfCommon _); simpl; [reflexivity |].
  destruct (nativeTags mm.id3v2 md) as [tags|]; simpl; [| reflexivity].
  destruct (lyricsOfUSLT tags); simpl; [reflexivity |].
  destruct (lyricsOfSYLT tags); simpl; [reflexivity |].
  now destruct (lyricsOfTXXX tags) as [[found|]|].
Qed.





(** ** The refresh of the whole library *)

#[local] Arguments musicFilesIn : simpl never.

Section Refresh.
Context `{Platform}.

Lemma processFileIfNeeded_other (file : TFile) (existingData : StoredData)
    (m : MetadataManager) (filePath : string) :
  filePath ≠ path file →
  cache (processFileIfNeeded file existingData m) !! filePath
  = cache m !! filePath.
Proof.
  intros Hne. unfold processFileIfNeeded, extractFileMetadata.
  destruct (existingFor existingData file) as [e|];
    [destruct (complete e) as [[t a]|] |]; simpl;
    try destruct (readBinary (app m) file); simpl;
    now rewrite lookup_insert_ne.
Qed.

Lemma processFileIfNeeded_stores (file : TFile) (existingData : StoredData)
    (m : MetadataManager) :
  is_Some (cache (processFileIfNeeded file existingData m) !! path file).
Proof.
  unfold processFileIfNeeded, extractFileMetadata.
  destruct (existingFor existingData file) as [e|];
    [destruct (complete e) as [[t a]|] |]; simpl;
    try destruct (readBinary (app m) file); simpl;
    rewrite lookup_insert_eq; eauto.
Qed.

Lemma processFileIfNeeded_keeps (file : TFile) (existingData : StoredData)
    (m : MetadataManager) (filePath : string) :
  is_Some (cache m !! filePath) →
  is_Some (cache (processFileIfNeeded file existingData m) !! filePath).
Proof.
  intros Hsome. destruct (decide (filePath = path file)) as [-> | Hne].
  - apply processFileIfNeeded_stores.
  - now rewrite processFileIfNeeded_other.
Qed.

Lemma processFiles_keeps (files : list TFile) (existingData : StoredData)
    (m : MetadataManager) (filePath : string) :
  is_Some (cache m !! filePath) →
  is_Some (cache (foldl (fun m file =>
                           processFileIfNeeded file existingData m)
                        m files) !! filePath).
Proof.
  revert m. induction files as [|f files IH]; intros m Hsome; simpl;
    [trivial |].
  now apply IH, processFileIfNeeded_keeps.
Qed.


(** When every task for [filePath] leaves a record with the property [P]
    there, whatever the manager it starts from, so does the batch. *)
Lemma processFiles_lookup (P : TrackMetadata → Prop) (files : list TFile)
    (existingData : StoredData) (vault : Vault) (filePath : string) :
  (∀ g m, g ∈ files → path g = filePath → app m = vault →
          ∃ r, cache (processFileIfNeeded g existingData m) !! filePath
               = Some r ∧ P r) →
  ∀ m,
    app m = vault →
    (∃ r, cache m !! filePath = Some r ∧ P r)
    ∨ (∃ g, g ∈ files ∧ path g = filePath) →
    ∃ r, cache (foldl (fun m file => processFileIfNeeded file existingData m)
                      m files) !! filePath = Some r
         ∧ P r.
Proof.
  induction files as [|f files IH]; intros Htask m Happ Hstart; simpl.
  - destruct Hstart as [Hr | (g & Hg & _)]; [exact Hr | inversion Hg].
  - apply IH.
    + intros g m' Hg. apply Htask. now right.
    + now destruct (processFileIfNeeded_frame f existingData m) as (-> & _).
    + destruct (decide (path f = filePath)) as [Hf | Hf].
      * left. apply Htask; [left | exact Hf | exact Happ].
      * rewrite processFileIfNeeded_other by congruence.
        destruct Hstart as [Hr | (g & Hg & Hpath)]; [now left |].
        apply elem_of_cons in Hg as [-> | Hg]; [congruence |].
        right. now exists g.
Qed.



Lemma processFileIfNeeded_extracts (file : TFile)
    (existingData : StoredData) (m : MetadataManager)
    (buffer : list Byte.byte) :
  (∀ e, existingFor existingData file = Some e → complete e = None) →
  readBinary (app m) file = Normal buffer →
  processFileIfNeeded file existingData m
  = store (path file)
          (extractMetadata buffer (lyricsFromLrcFile (app m) file) (parser m))
          m.
Proof.
  intros Hincomplete Hread.
  unfold processFileIfNeeded, extractFileMetadata. rewrite Hread. simpl.
  destruct (existingFor existingData file) as [e|]; [| reflexivity].
  now rewrite (Hincomplete e eq_refl).
Qed.

Lemma processFileIfNeeded_reuses (file : TFile) (existingData : StoredData)
    (m : MetadataManager) (e : StoredMetadata) (t a : string) :
  existingFor existingData file = Some e →
  complete e = Some (t, a) →
  processFileIfNeeded file existingData m
  = withCache (<[path file := reusedMetadata t a e]> (cache m)) m.
Proof.
  intros He Hcomplete. unfold processFileIfNeeded. now rewrite He, Hcomplete.
Qed.

End Refresh.

(** ** Reuse or re-extraction *)

Lemma complete_None (e : StoredMetadata) :
  complete e = None ↔ needsReExtraction e.
Proof.
  unfold complete, needsReExtraction, presentNonEmpty.
  destruct (stored_title e) as [t|], (stored_artist e) as [a|].
  - destruct t as [|c t], a as [|c' a]; simpl; split; try easy.
    + intros _ [(s & [= <-] & Hs) _]. congruence.
    + intros _ [(s & [= <-] & Hs) _]. congruence.
    + intros _ [_ (s & [= <-] & Hs)]. congruence.
    + intros Hneeds. destruct Hneeds. split; eexists; split; easy.
  - split; [| easy]. intros _ [_ (s & Hs & _)]. discriminate.
  - split; [| easy]. intros _ [(s & Hs & _) _]. discriminate.
  - split; [| easy]. intros _ [(s & Hs & _) _]. discriminate.
Qed.

(** C5. [processFileIfNeeded] tests a stored record for a truthy title
    and a truthy artist, and that is section 4.4's [needsReExtraction]:
    true unless both are present and non-empty.  Nothing else decides
    between reuse and re-extraction of a file that has a stored record: if
    the test holds the file is processed exactly as a file without stored
    record is, by extraction; if not, its record is taken over from the
    stored one and neither the vault nor the parser is touched.  So it is
    in a refresh: a file of the batch whose stored record needs
    re-extraction ends up with what [extractMetadata] makes of its bytes,
    one whose stored record does not with the stored title and artist.
    The stored record with the empty title, artist "A" and album "B" needs
    re-extraction. *)
Theorem reextraction_test `{Platform} :
  (∀ e, needsReExtraction e ↔ complete e = None)
  ∧ (∀ file existingData m e,
       existingFor existingData file = Some e →
       (needsReExtraction e →
        processFileIfNeeded file existingData m
        = processFileIfNeeded file emptyData m)
       ∧ (¬ needsReExtraction e →
          ∃ t a,
            stored_title e = Some t ∧ stored_artist e = Some a
            ∧ processFileIfNeeded file existingData m
              = withCache
                  (<[path file :=
                       {| title := t; artist := a;
                          album := orString (stored_album e) "未知专辑";
                          cover := orText (stored_cover e) None;
                          lyrics := orText (stored_lyrics e) None |}]>
                     (cache m)) m))
  ∧ (∀ folders w file e,
       file ∈ musicFilesIn (app (manager w)) (List.filter validFolder folders) →
       (∀ g, g ∈ musicFilesIn (app (manager w))
                   (List.filter validFolder folders) →
             path g = path file → g = file) →
       existingFor (loadExistingData (manager w)) file = Some e →
       (needsReExtraction e →
        ∀ buffer,
          readBinary (app (manager w)) file = Normal buffer →
          ∃ p,
            cache (manager (refreshAllMetadata folders w)) !! path file
            = Some (extractMetadata buffer
                      (lyricsFromLrcFile (app (manager w)) file) p).1)
       ∧ (¬ needsReExtraction e →
          ∃ r,
            cache (manager (refreshAllMetadata folders w)) !! path file
            = Some r
            ∧ stored_title e = Some (title r)
            ∧ stored_artist e = Some (artist r)))
  ∧ needsReExtraction
      {| stored_title := Some EmptyString; stored_artist := Some "A";
         stored_album := Some "B"; stored_cover := None;
         stored_lyrics := None |}.
Proof.
  assert (∀ e t a, complete e = Some (t, a) →
                   stored_title e = Some t ∧ stored_artist e = Some a)
    as Hfields.
  { intros e t a Hta. unfold complete in Hta.
    destruct (stored_title e) as [t'|], (stored_artist e) as [a'|];
      try discriminate.
    destruct (Js.nonEmpty t' && Js.nonEmpty a'); [| discriminate].
    now injection Hta as -> ->. }
  split; [intros e; symmetry; apply complete_None |]. split; [| split].
  - intros file existingData m e He. split.
    + intros Hneeds%complete_None. unfold processFileIfNeeded.
      rewrite He, Hneeds. reflexivity.
    + intros Hcomplete. destruct (complete e) as [[t a]|] eqn:Hta.
      * exists t, a. destruct (Hfields e t a Hta) as [-> ->].
        now rewrite (processFileIfNeeded_reuses file existingData m e t a).
      * now apply complete_None in Hta.
  - intros folders w file e Hfile Hunique He. unfold refreshAllMetadata.
    destruct (List.filter validFolder folders) as [|folder valid] eqn:Hvalid;
      [inversion Hfile |].
    rewrite scheduleSave_manager. simpl.
    set (ed := loadExistingData (manager w)) in *.
    set (batch := musicFilesIn (app (manager w)) (folder :: valid)) in *.
    split.
    + intros Hneeds%complete_None buffer Hread.
      destruct (processFiles_lookup
                  (fun r => ∃ p, r = (extractMetadata buffer
                                        (lyricsFromLrcFile (app (manager w))
                                                           file) p).1)
                  batch ed (app (manager w)) (path file))
        with (m := withDirty true (manager w)) as (r & Hr & p & ->); trivial.
      * intros g m Hg Hpath Happ. rewrite (Hunique g Hg Hpath).
        rewrite (processFileIfNeeded_extracts _ _ _ buffer).
        -- simpl. rewrite lookup_insert_eq, Happ. eauto.
        -- intros e'. rewrite He. now intros [= <-].
        -- now rewrite Happ.
      * right. now exists file.
      * now exists p.
    + intros Hcomplete. destruct (complete e) as [[t a]|] eqn:Hta;
        [| now apply complete_None in Hta].
      destruct (processFiles_lookup (fun r => r = reusedMetadata t a e)
                  batch ed (app (manager w)) (path file))
        with (m := withDirty true (manager w)) as (r & Hr & ->); trivial.
      * intros g m Hg Hpath Happ. rewrite (Hunique g Hg Hpath).
        rewrite (processFileIfNeeded_reuses _ _ _ e t a He Hta).
        simpl. rewrite lookup_insert_eq. eauto.
      * right. now exists file.
      * eexists. split; [exact Hr |]. now apply Hfields.
  - apply complete_None. reflexivity.
Qed.

Lemma reextraction_test_witness :
  let refreshed := @refreshAllMetadata Sample.platform ["Music"] Sample.world in
  existingFor (@loadExistingData Sample.platform (manager Sample.world))
              Sample.a_mp3
  = Some Sample.storedIncomplete
  ∧ needsReExtraction Sample.storedIncomplete
  ∧ @processFileIfNeeded Sample.platform Sample.a_mp3
      (@loadExistingData Sample.platform (manager Sample.world))
      (manager Sample.world)
    = @processFileIfNeeded Sample.platform Sample.a_mp3 emptyData
        (manager Sample.world)
  ∧ cache (manager refreshed) !! "Music/a.mp3"
    = Some {| title := "Song"; artist := "Band"; album := "未知专辑";
              cover := None; lyrics := Some "[00:01.00]la la" |}
  ∧ cache (manager refreshed) !! "Music/d.mp3"
    = Some {| title := "Kept"; artist := "A"; album := "B";
              cover := None; lyrics := None |}.
Proof.
  destruct (@reextraction_test Sample.platform)
    as (_ & Hdecides & _ & Hexample).
  destruct (Hdecides Sample.a_mp3
              (@loadExistingData Sample.platform (manager Sample.world))
              (manager Sample.world) Sample.storedIncomplete eq_refl)
    as [Hextract _].
  split; [reflexivity |]. split; [exact Hexample |].
  split; [exact (Hextract Hexample) |]. split; reflexivity.
Defined.




(** ** The Map that [getAllMetadata] returns *)

Lemma liveCache_same (m : Objects.Manager) (h h' : Objects.Heap) :
  Objects.records h' = Objects.records h →
  Objects.maps h' !! Objects.cache m = Objects.maps h !! Objects.cache m →
  Objects.liveCache m h' = Objects.liveCache m h.
Proof. unfold Objects.liveCache. now intros -> ->. Qed.

Lemma mutate_other_map (h : Objects.Heap) (mu : Objects.Mutation)
    (target other : nat) :
  Objects.mapTarget mu = Some target →
  other ≠ target →
  Objects.records (Objects.mutate h mu) = Objects.records h
  ∧ Objects.maps (Objects.mutate h mu) !! other = Objects.maps h !! other.
Proof.
  intros Htarget Hne.
  destruct mu; simpl in *; try discriminate; injection Htarget as ->;
    (split; [reflexivity | now apply lookup_alter_ne]).
Qed.

Lemma mutations_other_map (changes : list Objects.Mutation)
    (h : Objects.Heap) (target other : nat) :
  Forall (fun mu => Objects.mapTarget mu = Some target) changes →
  other ≠ target →
  Objects.records (foldl Objects.mutate h changes) = Objects.records h
  ∧ Objects.maps (foldl Objects.mutate h changes) !! other
    = Objects.maps h !! other.
Proof.
  revert h. induction changes as [|mu changes IH]; intros h Htargets Hne;
    simpl; [easy |].
  apply Forall_cons in Htargets as [Hmu Htargets].
  destruct (IH (Objects.mutate h mu) Htargets Hne) as [-> ->].
  now apply (mutate_other_map h mu target).
Qed.

(** C9, as the code has it.  [getAllMetadata] returns a new Map with the
    entries of the cache: the same paths, bound to the same record objects.
    Whatever is set, deleted or cleared in the returned Map, the cache
    keeps its entries and their fields. *)
Theorem getAllMetadata_copies_the_map (m : Objects.Manager) (h : Objects.Heap)
    (changes : list Objects.Mutation) :
  is_Some (Objects.maps h !! Objects.cache m) →
  let copy := (Objects.getAllMetadata m h).1 in
  let h' := (Objects.getAllMetadata m h).2 in
  copy ≠ Objects.cache m
  ∧ Objects.maps h' !! copy = Objects.maps h !! Objects.cache m
  ∧ Objects.liveCache m h' = Objects.liveCache m h
  ∧ (Forall (fun mu => Objects.mapTarget mu = Some copy) changes →
     Objects.liveCache m (foldl Objects.mutate h' changes)
     = Objects.liveCache m h).
Proof.
  intros Hallocated copy h'.
  assert (copy ≠ Objects.cache m) as Hfresh.
  { intros Heq. apply elem_of_dom in Hallocated. rewrite <- Heq in Hallocated.
    now apply is_fresh in Hallocated. }
  assert (Objects.records h' = Objects.records h
          ∧ Objects.maps h' !! Objects.cache m
            = Objects.maps h !! Objects.cache m) as Hinitial.
  { split; [reflexivity |]. simpl. now apply lookup_insert_ne. }
  split; [exact Hfresh |]. split.
  { destruct Hallocated as [entries Hentries]. subst copy h'. simpl.
    now rewrite lookup_insert_eq, Hentries. }
  split; [now apply liveCache_same |].
  intros Htargets. destruct Hinitial as [Hrecords Hmaps].
  destruct (mutations_other_map changes h' copy (Objects.cache m) Htargets)
    as [Hrecords' Hmaps']; [congruence |].
  apply liveCache_same; congruence.
Qed.

Lemma getAllMetadata_copies_the_map_witness :
  let m := {| Objects.cache := 0 |} in
  let h := {| Objects.records := {[ 1 := Sample.record "T" None ]};
              Objects.maps := {[ 0 := {[ "Music/a.mp3" := 1 ]} ]} |} in
  let copy := (Objects.getAllMetadata m h).1 in
  let h' := (Objects.getAllMetadata m h).2 in
  Objects.liveCache m
    (foldl Objects.mutate h'
       [Objects.MapDelete copy "Music/a.mp3"; Objects.MapSet copy "x" 1;
        Objects.MapClear copy])
  = Objects.liveCache m h.
Proof.
  intros m h copy h'.
  apply (getAllMetadata_copies_the_map m h).
  - exists {[ "Music/a.mp3" := 1 ]}. reflexivity.
  - repeat constructor.
Defined.

(** C9 fails as stated: the Map that is returned holds the cache's own
    record objects, and assigning to the fields of one changes what the
    cache holds. *)
Lemma returned_records_are_shared :
  let m := {| Objects.cache := 0 |} in
  let h := {| Objects.records := {[ 1 := Sample.record "T" None ]};
              Objects.maps := {[ 0 := {[ "Music/a.mp3" := 1 ]} ]} |} in
  let copy := (Objects.getAllMetadata m h).1 in
  let h' := (Objects.getAllMetadata m h).2 in
  (Objects.maps h' !! copy ≫= (fun entries => entries !! "Music/a.mp3"))
  = Some 1
  ∧ Objects.getMetadata "Music/a.mp3" m h' = Some 1
  ∧ Objects.liveCache m h !! "Music/a.mp3" = Some (Sample.record "T" None)
  ∧ Objects.liveCache m
      (Objects.mutate h' (Objects.RecordAssign 1 (Sample.record "changed" None)))
    !! "Music/a.mp3"
    = Some (Sample.record "changed" None)
  ∧ Objects.liveCache m
      (Objects.mutate h' (Objects.RecordAssign 1 (Sample.record "changed" None)))
    ≠ Objects.liveCache m h.
Proof.
  repeat split. intros Heq.
  apply (f_equal (fun c => c !! "Music/a.mp3")) in Heq. discriminate.
Qed.

(** ** Paths *)

Lemma hasDot_app (a b : string) :
  Js.hasDot (a +:+ b) = Js.hasDot a || Js.hasDot b.
Proof.
  induction a as [|c a IH]; simpl; [reflexivity |].
  rewrite IH. apply orb_assoc.
Qed.

Lemma replaceExtension_no_dot (ext s : string) :
  Js.hasDot s = false → Js.replaceExtension ext s = None.
Proof.
  induction s as [|c s IH]; simpl; [reflexivity |].
  intros [Hc Hs]%orb_false_elim. rewrite Hc, IH by trivial. reflexivity.
Qed.

Lemma replaceExtension_last_dot (ext base e : string) :
  Js.hasDot e = false →
  Js.replaceExtension ext (base +:+ String "." e)
  = if Js.nonEmpty e then Some (base +:+ ext) else None.
Proof.
  intros He. induction base as [|c base IH]; simpl.
  - rewrite He. now destruct e.
  - rewrite IH, hasDot_app. simpl. rewrite orb_true_r, andb_false_r.
    now destruct (Js.nonEmpty e).
Qed.

(** X1. The path [extractFileMetadata] looks the sidecar up at: the text
    after the last dot of the whole path is replaced, dot included, by the
    new extension, provided there is such text; a path without a dot, or
    one that ends in a dot, is left as it is.  The last dot need not belong
    to the file name: for a file name without a dot in a folder with one,
    the replacement starts inside the folder name. *)
Theorem sidecar_path (ext : string) :
  (∀ base e,
     e ≠ EmptyString → Js.hasDot e = false →
     Js.withExtension ext (base +:+ "." +:+ e) = base +:+ ext)
  ∧ (∀ s, Js.hasDot s = false → Js.withExtension ext s = s)
  ∧ (∀ base, Js.withExtension ext (base +:+ ".") = base +:+ ".").
Proof.
  unfold Js.withExtension. split; [| split].
  - intros base e He Hdot.
    change ("." +:+ e) with (String "." e).
    rewrite replaceExtension_last_dot by trivial. now destruct e.
  - intros s Hs. now rewrite replaceExtension_no_dot.
  - intros base.
    now rewrite (replaceExtension_last_dot ext base EmptyString).
Qed.

Lemma sidecar_path_witness :
  Js.withExtension ".lrc" "Music/live.2019/song.mp3"
  = "Music/live.2019/song.lrc"
  ∧ Js.withExtension ".lrc" "Music/README" = "Music/README"
  ∧ Js.withExtension ".lrc" "Music/live.2019/README" = "Music/live.lrc".
Proof.
  destruct (sidecar_path ".lrc") as (Hext & Hnone & _).
  split; [| split].
  - apply (Hext "Music/live.2019/song" "mp3"); [discriminate | reflexivity].
  - apply (Hnone "Music/README"). reflexivity.
  - apply (Hext "Music/live" "2019/README"); [discriminate | reflexivity].
Defined.

Lemma afterLastSlash_None (s : string) :
  Js.afterLastSlash s = None ↔ Js.includes s "/" = false.
Proof.
  induction s as [|c s IH]; simpl; [easy |].
  destruct (Js.afterLastSlash s) as [t|].
  - split; [easy |]. intros [_ Hs]%orb_false_elim.
    now apply IH in Hs.
  - destruct IH as [IH _]. rewrite IH by trivial. rewrite orb_false_r.
    unfold Js.isSlash. destruct (decide ("/"%char = c)) as [<- | Hc].
    + destruct s; simpl; split; easy.
    + replace (Js.code c =? 47)%N with false; [easy |].
      symmetry. apply N.eqb_neq. intros Hcode. apply Hc.
      unfold Js.code in Hcode.
      rewrite <- (ascii_N_embedding c), Hcode. reflexivity.
Qed.

Lemma afterLastSlash_app (dir name : string) :
  Js.includes name "/" = false →
  Js.afterLastSlash (dir +:+ "/" +:+ name) = Some name.
Proof.
  intros Hname%afterLastSlash_None.
  change ("/" +:+ name) with (String "/" name).
  induction dir as [|c dir IH]; simpl.
  - now rewrite Hname.
  - now rewrite IH.
Qed.

Lemma lastSegment_app (dir name : string) :
  Js.includes name "/" = false →
  Js.lastSegment (dir +:+ "/" +:+ name) = name.
Proof.
  intros Hname. unfold Js.lastSegment.
  now rewrite afterLastSlash_app.
Qed.

Section FileName.
Context `{Platform}.

(** X2. [handleFileChange] decides on the file name alone, the text after
    the last slash of the path: whatever the folders are called, an event
    for a name that the suffix filter rejects changes nothing, and an event
    for a name that it accepts leaves the manager dirty. *)
Theorem handleFileChange_by_name (dir fileName : string) (type : ChangeType)
    (w : World) :
  Js.includes fileName "/" = false →
  Js.lastSegment fileName = fileName
  ∧ Js.lastSegment (dir +:+ "/" +:+ fileName) = fileName
  ∧ (isSupportedAudioFile fileName = false →
     handleFileChange (dir +:+ "/" +:+ fileName) type w = w)
  ∧ (isSupportedAudioFile fileName = true →
     needsSave (manager (handleFileChange (dir +:+ "/" +:+ fileName) type w))
     = true).
Proof.
  intros Hname. unfold handleFileChange.
  rewrite lastSegment_app by trivial.
  split; [| split; [reflexivity |]; split].
  - unfold Js.lastSegment. now apply afterLastSlash_None in Hname as ->.
  - now intros ->.
  - intros ->. destruct type; simpl; rewrite ?scheduleSave_manager; reflexivity.
Qed.

End FileName.

Lemma handleFileChange_by_name_witness :
  Js.lastSegment "Music/live.mp3/notes.md" = "notes.md"
  ∧ @handleFileChange Sample.platform "Music/live.mp3/notes.md" Modify
      Sample.world
    = Sample.world.
Proof.
  destruct (@handleFileChange_by_name Sample.platform "Music/live.mp3"
              "notes.md" Modify Sample.world eq_refl)
    as (_ & Hlast & Hignored & _).
  split; [exact Hlast |]. apply Hignored. reflexivity.
Defined.

(** ** What the parser returns *)

Lemma lyricsOfTag_nonEmpty (tag : option mm.ITag) :
  lyricsOfTag tag = None ∨ truthyText (lyricsOfTag tag) = true.
Proof.
  unfold lyricsOfTag. destruct tag as [t|]; [| now left].
  destruct (Value.truthy (mm.value t)); [| now left].
  destruct (truthyText (extractLyricsText (mm.value t))) eqn:Htext;
    [now right | now left].
Qed.

Lemma lyricsOfCommon_nonEmpty (v : JsValue) :
  lyricsOfCommon v = None ∨ truthyText (lyricsOfCommon v) = true.
Proof.
  destruct v as [| | | | |items|]; try now left.
  simpl. induction items as [|lyric rest IH]; [now left |].
  destruct lyric as [| | | |s| |props]; trivial.
  - destruct (Js.nonEmpty s && Js.nonEmpty (Js.trim s)) eqn:Hs; [| trivial].
    right. simpl. now apply andb_prop in Hs.
  - destruct (Value.getProp "text" props) as [[| | | |text| |]|]; trivial.
    destruct (Js.nonEmpty text && Js.nonEmpty (Js.trim text)) eqn:Hs;
      [| trivial].
    right. simpl. now apply andb_prop in Hs.
Qed.

Lemma lyricsOfTXXX_nonEmpty (tags : list mm.ITag) (found : option string) :
  lyricsOfTXXX tags = Normal found →
  found = None ∨ truthyText found = true.
Proof.
  unfold lyricsOfTXXX. destruct (findC isLyricsTXXX tags) as [[t|]|];
    simpl; [| intros [= <-]; now left | discriminate].
  intros [= <-].
  destruct (Value.truthy (mm.value t)); [| now left].
  destruct (Value.truthy (member "text" (mm.value t))); [| now left].
  destruct (truthyText (extractLyricsText (member "text" (mm.value t))))
    eqn:Htext; [now right | now left].
Qed.

Lemma lyricsFrom_nonEmpty (source : LyricsSource) (md : mm.IAudioMetadata)
    (found : option string) :
  lyricsFrom source md = Normal found →
  found = None ∨ truthyText found = true.
Proof.
  destruct source; simpl; try (intros [= <-]).
  - apply lyricsOfCommon_nonEmpty.
  - destruct (nativeTags mm.id3v2 md); [apply lyricsOfTag_nonEmpty | now left].
  - destruct (nativeTags mm.id3v2 md); [apply lyricsOfTag_nonEmpty | now left].
  - destruct (nativeTags mm.id3v2 md) as [tags|]; simpl.
    + apply lyricsOfTXXX_nonEmpty.
    + intros [= <-]. now left.
  - destruct (nativeTags mm.vorbis md); [apply lyricsOfTag_nonEmpty | now left].
  - destruct (nativeTags mm.apev2 md); [apply lyricsOfTag_nonEmpty | now left].
  - destruct (nativeTags mm.iTunes md); [apply lyricsOfTag_nonEmpty |].
    destruct (nativeTags mm.mp4 md); [apply lyricsOfTag_nonEmpty | now left].
  - destruct (nativeTags mm.asf md); [apply lyricsOfTag_nonEmpty | now left].
Qed.

Lemma firstMatch_nonEmpty (sources : list LyricsSource)
    (md : mm.IAudioMetadata) (found : option string) :
  firstMatch sources md = Normal found →
  found = None ∨ truthyText found = true.
Proof.
  induction sources as [|source rest IH]; simpl.
  - intros [= <-]. now left.
  - destruct (lyricsFrom source md) as [[text|]|] eqn:Hsource; simpl;
      [| exact IH | discriminate].
    intros [= <-]. now apply lyricsFrom_nonEmpty in Hsource.
Qed.

Lemma extractLyrics_nonEmpty (md : mm.IAudioMetadata) :
  extractLyrics md = None ∨ truthyText (extractLyrics md) = true.
Proof.
  unfold extractLyrics. rewrite extractLyricsBody_chain.
  destruct (firstMatch sourceOrder md) as [found|] eqn:Hchain; simpl;
    [| now left].
  now apply firstMatch_nonEmpty in Hchain.
Qed.

(** X3. [extractLyrics] never returns the empty string: its result is
    [null] or a non-empty text, whichever of the eight sources it comes
    from. *)
Theorem extractLyrics_never_empty (md : mm.IAudioMetadata) :
  extractLyrics md = None
  ∨ ∃ text, extractLyrics md = Some text ∧ Js.nonEmpty text = true.
Proof.
  destruct (extractLyrics_nonEmpty md) as [Hnone | Htext]; [now left |].
  right. destruct (extractLyrics md) as [text|]; [| discriminate].
  now exists text.
Qed.

Lemma orString_nonEmpty (a : option string) (fallback : string) :
  Js.nonEmpty fallback = true → Js.nonEmpty (orString a fallback) = true.
Proof.
  intros Hfallback. unfold orString. destruct a as [s|]; [| trivial].
  now destruct (Js.nonEmpty s) eqn:Hs.
Qed.

Lemma startsWith_createObjectURL (n : nat) :
  Js.startsWith (createObjectURL n) "blob:" = true.
Proof. apply startsWith_spec. now exists (pretty n). Qed.

Lemma extractCover_blob (pictures : option (list mm.IPicture))
    (p : MetadataParser) :
  (extractCover pictures p).1 = None
  ∨ startsWithBlob (extractCover pictures p).1 = true.
Proof.
  destruct pictures as [[|picture rest]|]; auto.
  right. unfold extractCover, startsWithBlob. cbn [fst].
  rewrite startsWith_createObjectURL. reflexivity.
Qed.

Lemma orText_kept (a b : option string) :
  b = None ∨ truthyText b = true →
  orText a b ≠ Some EmptyString ∧ orText (orText a b) None = orText a b.
Proof.
  intros Hb. unfold orText. destruct (truthyText a) eqn:Ha.
  - rewrite Ha. split; [| reflexivity]. intros ->. discriminate.
  - destruct Hb as [-> | Hb]; [easy |]. rewrite Hb.
    split; [| reflexivity]. intros ->. discriminate.
Qed.

Section Extraction.
Context `{Platform}.

(** X4. When the buffer decodes, the record [extractMetadata] returns has
    a non-empty title, artist and album (the fallback texts stand in for
    missing or empty tags) and its lyrics are not the empty string; so
    [initializeFromSettings] gives it back as it is, except for the cover,
    which it sets to [null]: a cover made by the parser is a "blob:" URL. *)
Theorem extraction_survives_restart (arrayBuffer : list Byte.byte)
    (lyricsFromLrc : option string) (p : MetadataParser)
    (md : mm.IAudioMetadata) :
  parseBuffer arrayBuffer = Normal md →
  let r := (extractMetadata arrayBuffer lyricsFromLrc p).1 in
  Js.nonEmpty (title r) = true
  ∧ Js.nonEmpty (artist r) = true
  ∧ Js.nonEmpty (album r) = true
  ∧ lyrics r ≠ Some EmptyString
  ∧ fullMetadata r = withCover None r.
Proof.
  intros Hparse. unfold extractMetadata. rewrite Hparse. simpl.
  pose proof (extractCover_blob (mm.picture (mm.common md)) p) as Hcover.
  destruct (extractCover (mm.picture (mm.common md)) p) as [coverUrl p'].
  destruct (orText_kept lyricsFromLrc (extractLyrics md)
              (extractLyrics_nonEmpty md)) as [Hlyrics Hkept].
  simpl in *. repeat (split; [now apply orString_nonEmpty |]).
  split; [exact Hlyrics |].
  unfold fullMetadata, withCover. simpl. rewrite Hkept.
  destruct Hcover as [-> | ->]; reflexivity.
Qed.

End Extraction.

Lemma extraction_survives_restart_witness :
  let r := (@extractMetadata Album.platform (Sample.bytesOf "any")
              (Some EmptyString) (parser (manager Sample.world))).1 in
  r = {| title := "未知标题"; artist := "未知艺术家"; album := "Album";
         cover := Some "blob:0"; lyrics := Some "la" |}
  ∧ fullMetadata r
    = {| title := "未知标题"; artist := "未知艺术家"; album := "Album";
         cover := None; lyrics := Some "la" |}.
Proof.
  split; [reflexivity |].
  exact (proj2 (proj2 (proj2 (proj2
           (@extraction_survives_restart Album.platform
              (Sample.bytesOf "any") (Some EmptyString)
              (parser (manager Sample.world)) Album.pictured eq_refl))))).
Defined.

Lemma withProp_getProp {A : Type} (key : string) (f : JsValue → A)
    (props : list (string * JsValue)) :
  Value.withProp key f props = f <$> Value.getProp key props.
Proof.
  unfold Value.getProp. induction props as [|[k v] rest IH]; simpl;
    [reflexivity |].
  now destruct (decide (k = key)).
Qed.

Lemma extractLyricsText_falsy (value : JsValue) :
  Value.truthy value = false → extractLyricsText value = None.
Proof. intros Hvalue. destruct value; simpl in *; now rewrite ?Hvalue. Qed.

Lemma extractLyricsText_array (items : list JsValue) :
  extractLyricsText (JArr items)
  = default None (List.find truthyText (List.map extractLyricsText items)).
Proof.
  simpl. induction items as [|item rest IH]; [reflexivity |].
  simpl.
  destruct (truthyText (extractLyricsText item)); [reflexivity | exact IH].
Qed.

Lemma extractLyricsText_no_item (items : list JsValue) :
  (∀ v, v ∈ items → truthyText (extractLyricsText v) = false) →
  extractLyricsText (JArr items) = None.
Proof.
  intros Hitems. rewrite extractLyricsText_array.
  induction items as [|v items IH]; [reflexivity |].
  simpl. rewrite (Hitems v) by left.
  apply IH. intros u Hu. apply Hitems. now right.
Qed.

(** X5. On an array, [extractLyricsText] returns the text of the first
    item that yields a non-empty one; the items in front of it, which
    yield nothing, are skipped, and on their own give [null]. *)
Theorem extractLyricsText_first_item (before after : list JsValue)
    (item : JsValue) (text : string) :
  (∀ v, v ∈ before → truthyText (extractLyricsText v) = false) →
  extractLyricsText item = Some text →
  text ≠ EmptyString →
  extractLyricsText (JArr (before ++ item :: after)) = Some text
  ∧ extractLyricsText (JArr before) = None.
Proof.
  intros Hbefore Hitem Htext.
  split; [| now apply extractLyricsText_no_item].
  rewrite extractLyricsText_array.
  induction before as [|v before IH]; simpl.
  - rewrite Hitem. simpl. now destruct text.
  - rewrite (Hbefore v) by left. apply IH.
    intros u Hu. apply Hbefore. now right.
Qed.

Lemma extractLyricsText_first_item_witness :
  extractLyricsText
    (JArr [JNull; JStr "  "; JObj [("language", JStr "eng")];
           JObj [("text", JStr " la la ")]; JStr "second"])
  = Some "la la".
Proof.
  apply (extractLyricsText_first_item
           [JNull; JStr "  "; JObj [("language", JStr "eng")]]
           [JStr "second"] (JObj [("text", JStr " la la ")]) "la la").
  - intros v Hv. repeat (apply elem_of_cons in Hv as [-> | Hv]; [reflexivity |]).
    inversion Hv.
  - reflexivity.
  - discriminate.
Defined.

(** The part of [extractLyricsText] that reads the [text] field. *)
Lemma extractLyricsText_text (props : list (string * JsValue)) :
  truthyText (Value.getProp "text" props ≫= extractLyricsText) = true →
  extractLyricsText (JObj props)
  = Value.getProp "text" props ≫= extractLyricsText.
Proof.
  intros Htext. cbn [extractLyricsText Value.truthy negb].
  rewrite withProp_getProp.
  destruct (Value.getProp "text" props) as [t|]; [| discriminate].
  simpl in *. destruct (Value.truthy t) eqn:Ht.
  - now rewrite Htext.
  - now rewrite extractLyricsText_falsy in Htext.
Qed.

(** X6. On an object, [extractLyricsText] asks the [text] field first: if
    that yields a non-empty text it is the result, whatever the other
    fields hold.  If [text] yields nothing and there is a truthy
    [descriptor], the result is what the descriptor yields, be it [null]:
    the timed lines under [lyrics] are not looked at. *)
Theorem extractLyricsText_object_order (props : list (string * JsValue)) :
  (∀ t text,
     Value.getProp "text" props = Some t →
     extractLyricsText t = Some text →
     text ≠ EmptyString →
     extractLyricsText (JObj props) = Some text)
  ∧ (∀ d,
       truthyText (Value.getProp "text" props ≫= extractLyricsText) = false →
       Value.getProp "descriptor" props = Some d →
       Value.truthy d = true →
       extractLyricsText (JObj props) = extractLyricsText d).
Proof.
  split.
  - intros t text Ht Htext Hnonempty.
    rewrite extractLyricsText_text; rewrite Ht; simpl; rewrite Htext;
      [reflexivity |].
    now destruct text.
  - intros d Htext Hd Htruthy. cbn [extractLyricsText Value.truthy negb].
    rewrite !withProp_getProp, Hd.
    destruct (Value.getProp "text" props) as [t|]; simpl in *.
    + destruct (Value.truthy t); simpl; rewrite ?Htext, Htruthy; reflexivity.
    + now rewrite Htruthy.
Qed.

Lemma extractLyricsText_object_order_witness :
  extractLyricsText
    (JObj [("language", JStr "eng"); ("descriptor", JStr "words");
           ("text", JStr "la la");
           ("lyrics", JArr [JStr "line"])])
  = Some "la la"
  ∧ extractLyricsText
      (JObj [("text", JStr " "); ("descriptor", JNum 1);
             ("lyrics", JArr [JStr "line1"; JStr "line2"])])
    = None.
Proof.
  split.
  - apply (proj1 (extractLyricsText_object_order _) (JStr "la la") "la la");
      [reflexivity | reflexivity | discriminate].
  - apply (proj2 (extractLyricsText_object_order
                    [("text", JStr " "); ("descriptor", JNum 1);
                     ("lyrics", JArr [JStr "line1"; JStr "line2"])])
                 (JNum 1)); reflexivity.
Defined.

Lemma timed_lines (ls : list JsValue) (texts : list string) :
  Forall2 (fun line text => lineText line = JStr text) ls texts →
  List.filter (fun line => negb (Value.isNull line)) (List.map lineText ls)
  = JStr <$> texts.
Proof.
  induction 1 as [|line text ls texts Hline _ IH]; [reflexivity |].
  simpl. rewrite Hline. simpl. now rewrite IH.
Qed.

Lemma join_strings (sep : string) (texts : list string) :
  Value.join sep (JStr <$> texts) = String.concat sep texts.
Proof.
  unfold Value.join. f_equal. induction texts as [|text texts IH];
    [reflexivity |].
  simpl. f_equal. exact IH.
Qed.

(** X7. On an object whose [text] yields nothing and that has no truthy
    [descriptor], the timed lines under [lyrics] are joined by line feeds:
    a line is a string or an object with a [text]; time stamps are dropped
    and the lines are not trimmed.  Without lines the result is [null]. *)
Theorem extractLyricsText_timed_lines (props : list (string * JsValue))
    (ls : list JsValue) (texts : list string) :
  truthyText (Value.getProp "text" props ≫= extractLyricsText) = false →
  (∀ d, Value.getProp "descriptor" props = Some d → Value.truthy d = false) →
  Value.getProp "lyrics" props = Some (JArr ls) →
  Forall2 (fun line text => lineText line = JStr text) ls texts →
  extractLyricsText (JObj props)
  = match texts with
    | [] => None
    | _ :: _ => Some (String.concat newline texts)
    end.
Proof.
  intros Htext Hdescriptor Hlyrics Hlines.
  cbn [extractLyricsText Value.truthy negb].
  rewrite !withProp_getProp, Hlyrics, (timed_lines ls texts Hlines).
  assert (truthyText
            match (λ t, if Value.truthy t then extractLyricsText t else None)
                  <$> Value.getProp "text" props with
            | Some text => text
            | None => None
            end = false) as ->.
  { destruct (Value.getProp "text" props) as [t|]; [| reflexivity].
    simpl in *. now destruct (Value.truthy t). }
  assert ((λ d, if Value.truthy d then Some (extractLyricsText d) else None)
          <$> Value.getProp "descriptor" props
          = None ∨
          (λ d, if Value.truthy d then Some (extractLyricsText d) else None)
          <$> Value.getProp "descriptor" props
          = Some None) as [-> | ->].
  { destruct (Value.getProp "descriptor" props) as [d|]; [| now left].
    right. simpl. now rewrite (Hdescriptor d). }
  all: destruct texts as [|text texts]; [reflexivity |].
  all: now rewrite <- join_strings.
Qed.

Lemma extractLyricsText_timed_lines_witness :
  extractLyricsText
    (JObj [("language", JStr "eng");
           ("lyrics",
            JArr [JObj [("text", JStr " one"); ("timestamp", JNum 0)];
                  JStr "two ";
                  JObj [("text", JStr "three"); ("timestamp", JNum 1500)]])])
  = Some (" one" +:+ newline +:+ "two " +:+ newline +:+ "three").
Proof.
  apply (extractLyricsText_timed_lines
           [("language", JStr "eng");
            ("lyrics",
             JArr [JObj [("text", JStr " one"); ("timestamp", JNum 0)];
                   JStr "two ";
                   JObj [("text", JStr "three"); ("timestamp", JNum 1500)]])]
           [JObj [("text", JStr " one"); ("timestamp", JNum 0)];
            JStr "two ";
            JObj [("text", JStr "three"); ("timestamp", JNum 1500)]]
           [" one"; "two "; "three"]).
  - reflexivity.
  - intros d. discriminate.
  - reflexivity.
  - repeat constructor.
Defined.

Lemma findC_throws (tags before after : list mm.ITag) (frame : mm.ITag) :
  tags = before ++ frame :: after →
  (∀ t, t ∈ before → isLyricsTXXX t = Normal false) →
  isLyricsTXXX frame = Thrown →
  findC isLyricsTXXX tags = Thrown.
Proof.
  intros -> Hbefore Hframe. induction before as [|t before IH]; simpl.
  - now rewrite Hframe.
  - rewrite (Hbefore t) by left. simpl. apply IH.
    intros u Hu. apply Hbefore. now right.
Qed.

Lemma firstMatch_app (sources rest : list LyricsSource)
    (md : mm.IAudioMetadata) :
  firstMatch (sources ++ rest) md
  = bindC (firstMatch sources md) (fun found =>
      match found with
      | Some text => Normal (Some text)
      | None => firstMatch rest md
      end).
Proof.
  induction sources as [|source sources IH]; simpl; [reflexivity |].
  destruct (lyricsFrom source md) as [[text|]|]; simpl; trivial.
Qed.

(** X8. A TXXX frame whose description is neither a string nor missing
    makes the [find] callback throw; when the sources in front (common
    lyrics, USLT, SYLT) yield nothing and no TXXX frame before it matches,
    [extractLyrics] ends in its [catch] block and returns [null], without
    asking the later frames or the Vorbis, APEv2, iTunes and ASF tags. *)
Theorem txxx_description_not_text (md : mm.IAudioMetadata)
    (tags before after : list mm.ITag) (props : list (string * JsValue))
    (description : JsValue) :
  nativeTags mm.id3v2 md = Some tags →
  tags = before ++ {| mm.id := "TXXX"; mm.value := JObj props |} :: after →
  (∀ t, t ∈ before → isLyricsTXXX t = Normal false) →
  Value.getProp "description" props = Some description →
  match description with
  | JBool _ | JNum _ | JArr _ | JObj _ => True
  | JUndefined | JNull | JStr _ => False
  end →
  firstMatch [CommonLyrics; USLT; SYLT] md = Normal None →
  extractLyrics md = None.
Proof.
  intros Htags Hsplit Hbefore Hdescription Hkind Hearlier.
  unfold extractLyrics. rewrite extractLyricsBody_chain.
  change sourceOrder
    with ([CommonLyrics; USLT; SYLT] ++ [TXXX; Vorbis; APEv2; ITunesMP4; ASF]).
  rewrite firstMatch_app, Hearlier.
  cbn [bindC firstMatch lyricsFrom]. rewrite Htags. cbn [inContainer].
  unfold lyricsOfTXXX.
  rewrite (findC_throws tags before after
             {| mm.id := "TXXX"; mm.value := JObj props |});
    [reflexivity | assumption | assumption |].
  unfold isLyricsTXXX. cbn [mm.id mm.value].
  rewrite decide_True by reflexivity. rewrite Hdescription.
  now destruct description.
Qed.

Lemma txxx_description_not_text_witness :
  lyricsOfVorbis
    [{| mm.id := "LYRICS"; mm.value := JStr "from the comments" |}]
  = Some "from the comments"
  ∧ extractLyrics Album.numbered = None.
Proof.
  split; [reflexivity |].
  apply (txxx_description_not_text Album.numbered
           [{| mm.id := "TXXX";
               mm.value := JObj [("description", JNum 1);
                                 ("text", JStr "one")] |};
            {| mm.id := "TXXX";
               mm.value := JObj [("description", JStr "lyrics");
                                 ("text", JStr "from the frame")] |}]
           []
           [{| mm.id := "TXXX";
               mm.value := JObj [("description", JStr "lyrics");
                                 ("text", JStr "from the frame")] |}]
           [("description", JNum 1); ("text", JStr "one")] (JNum 1));
    [reflexivity | reflexivity | | reflexivity | exact I | reflexivity].
  intros t Ht. inversion Ht.
Defined.


Section Cover.
Context `{Platform}.


End Cover.


(** ** Initialisation from the settings *)

Lemma initializeFromSettings_progress (entries : gmap string TrackMetadata)
    (m : MetadataManager) :
  let m' := initializeFromSettings {| metadata := Some entries |} m in
  totalTracks m' = size entries ∧ processedTracks m' = size entries
  ∧ parser m' = parser m.
Proof.
  unfold initializeFromSettings. simpl.
  match goal with
  | |- context [map_fold ?f ?b entries] =>
    apply (map_fold_weak_ind
             (fun acc (c : gmap string TrackMetadata) =>
                totalTracks acc = size entries
                ∧ processedTracks acc = size c
                ∧ parser acc = parser m) f b)
  end; simpl.
  - now rewrite map_size_empty.
  - intros path r c acc Hfresh (Htotal & Hprocessed & Hparser).
    rewrite map_size_insert_None by trivial. now rewrite Hprocessed.
Qed.

(** X10. After [initializeFromSettings] the manager is initialised, the
    number of processed tracks equals the total, and both equal the number
    of entries of the settings and the size of the cache, which holds the
    paths of the settings and no others: what was cached before is gone.
    Settings without [metadata] count as empty.  The parser, the dirty flag
    and the pending save are not touched. *)
Theorem initializeFromSettings_counts (settings : PluginSettings)
    (m : MetadataManager) :
  let m' := initializeFromSettings settings m in
  let entries := default ∅ (metadata settings) in
  isFullyInitialized m' = true
  ∧ totalTracks m' = size entries
  ∧ processedTracks m' = totalTracks m'
  ∧ getCacheSize m' = totalTracks m'
  ∧ dom (cache m') = dom entries
  ∧ parser m' = parser m
  ∧ needsSave m' = needsSave m
  ∧ saveTimeout m' = saveTimeout m.
Proof.
  intros m' entries.
  destruct (initializeFromSettings_frame settings m)
    as (_ & Htimeout & Hdirty & _).
  subst m' entries. unfold getCacheSize, needsSave, isFullyInitialized.
  rewrite Htimeout, Hdirty. clear Htimeout Hdirty.
  destruct settings as [[entries|]].
  - destruct (initializeFromSettings_progress entries m)
      as (Htotal & Hprocessed & Hparser).
    rewrite initializeFromSettings_cache, Htotal, Hprocessed, Hparser.
    rewrite map_size_fmap, dom_fmap_L. simpl. easy.
  - simpl. rewrite map_size_empty, !dom_empty_L. easy.
Qed.





(** ** Timers, one callback at a time *)

Section Steps.
Context `{Platform}.

Lemma runTimers_step (fuel deadline : nat) (w : World) (t : Timer)
    (rest : list Timer) :
  timers (loop w) = t :: rest →
  due t ≤ deadline →
  runTimers (S fuel) deadline w
  = runTimers fuel deadline
      (fire (task t)
            {| manager := manager w;
               loop := withNow (Nat.max (now (loop w)) (due t))
                               (withTimers rest (loop w)) |}).
Proof.
  intros Hts Hdue. cbn [runTimers]. rewrite Hts.
  now apply Nat.leb_le in Hdue as ->.
Qed.

Lemma runTimers_wait (fuel deadline : nat) (w : World) (t : Timer)
    (rest : list Timer) :
  timers (loop w) = t :: rest →
  deadline < due t →
  runTimers fuel deadline w = w.
Proof.
  intros Hts Hdue. destruct fuel; [reflexivity |].
  cbn [runTimers]. rewrite Hts.
  now apply Nat.leb_gt in Hdue as ->.
Qed.

Lemma runTimers_empty (fuel deadline : nat) (w : World) :
  timers (loop w) = [] → runTimers fuel deadline w = w.
Proof. intros Hts. destruct fuel; [reflexivity |]. cbn. now rewrite Hts. Qed.

Lemma updateTimerFired_readable (filePath : string) (w : World)
    (file : TFile) (buffer : list Byte.byte) :
  getAbstractFileByPath (app (manager w)) filePath = Some (IsFile file) →
  readBinary (app (manager w)) file = Normal buffer →
  updateTimerFired filePath w
  = scheduleSave
      (onManager
         (store filePath
                (extractMetadata buffer
                   (lyricsFromLrcFile (app (manager w)) file)
                   (parser (manager w))))
         w).
Proof.
  intros Hfile Hread. unfold updateTimerFired, extractFileMetadata.
  now rewrite Hfile, Hread.
Qed.

Lemma updateTimerFired_missing (filePath : string) (w : World) :
  (∀ file,
     getAbstractFileByPath (app (manager w)) filePath = Some (IsFile file) →
     readBinary (app (manager w)) file = Thrown) →
  updateTimerFired filePath w = w.
Proof.
  intros Hmissing. unfold updateTimerFired, extractFileMetadata.
  destruct (getAbstractFileByPath (app (manager w)) filePath)
    as [[file|]|]; try reflexivity.
  now rewrite (Hmissing file).
Qed.

Lemma modify_world (filePath : string) (type : ChangeType) (w : World) :
  isSupportedAudioFile (Js.lastSegment filePath) = true →
  type ≠ Delete →
  handleFileChange filePath type w
  = {| manager := withDirty true (manager w);
       loop := {| now := now (loop w);
                  timers := enqueue {| timerId := nextTimerId (loop w);
                                       due := now (loop w) + 500;
                                       task := UpdateFile filePath |}
                                    (timers (loop w));
                  nextTimerId := S (nextTimerId (loop w));
                  saveCalls := saveCalls (loop w) |} |}.
Proof.
  intros Hfilter Htype. unfold handleFileChange. rewrite Hfilter.
  now destruct type.
Qed.

(** X12. A [create] or [modify] event for a path that the suffix filter
    accepts marks the manager dirty at once.  If the file is not there, or
    cannot be read, when the update timer fires 500 ms later, the cache
    stays as it was, no save is scheduled and no save call is made: with
    nothing else pending, the manager stays dirty however long one
    waits. *)
Theorem modify_event_on_missing_file (filePath : string) (type : ChangeType)
    (w : World) (ms : nat) :
  isSupportedAudioFile (Js.lastSegment filePath) = true →
  type ≠ Delete →
  timers (loop w) = [] →
  (∀ file,
     getAbstractFileByPath (app (manager w)) filePath = Some (IsFile file) →
     readBinary (app (manager w)) file = Thrown) →
  let w' := advance ms (handleFileChange filePath type w) in
  getAllMetadata (manager w') = getAllMetadata (manager w)
  ∧ saveCalls (loop w') = saveCalls (loop w)
  ∧ pendingSaves w' = []
  ∧ needsSave (manager w') = true
  ∧ (500 ≤ ms → timers (loop w') = []).
Proof.
  intros Hfilter Htype Hidle Hmissing.
  rewrite modify_world by trivial. rewrite Hidle. cbn [enqueue].
  unfold advance, fuelFor. cbn [loop timers length now Nat.mul Nat.add].
  set (u := {| timerId := nextTimerId (loop w); due := now (loop w) + 500;
               task := UpdateFile filePath |}).
  destruct (Nat.le_gt_cases 500 ms) as [Hlate | Hearly].
  - erewrite runTimers_step; [| reflexivity | simpl; lia].
    cbn [fire task u]. rewrite updateTimerFired_missing by exact Hmissing.
    rewrite runTimers_empty by reflexivity. easy.
  - erewrite runTimers_wait; [| reflexivity | simpl; lia].
    repeat split. intros Hms. lia.
Qed.

Lemma delete_world (filePath : string) (w : World) :
  isSupportedAudioFile (Js.lastSegment filePath) = true →
  timers (loop w) = [] →
  handleFileChange filePath Delete w
  = {| manager :=
         withSaveTimeout (Some (nextTimerId (loop w)))
           (withCache (base.delete filePath (cache (manager w)))
                      (withDirty true (manager w)));
       loop := {| now := now (loop w);
                  timers := [{| timerId := nextTimerId (loop w);
                                due := now (loop w) + 500;
                                task := NotifySave |}];
                  nextTimerId := S (nextTimerId (loop w));
                  saveCalls := saveCalls (loop w) |} |}.
Proof.
  intros Hfilter Hidle. unfold handleFileChange. rewrite Hfilter.
  cbn [negb].
  set (w1 := onManager _ (onManager _ w)).
  assert (loop w1 = loop w) as Hloop by reflexivity.
  assert (scheduleSave w1
          = {| manager := manager (scheduleSave w1);
               loop := loop (scheduleSave w1) |}) as ->
    by now destruct (scheduleSave w1).
  rewrite scheduleSave_manager, scheduleSave_loop.
  rewrite clearSaveTimeout_idle by (now rewrite Hloop).
  now rewrite Hloop, Hidle.
Qed.

(** X13. A [delete] event for a path that the suffix filter accepts but
    that is not in the cache leaves the cache as it is, and still marks the
    manager dirty and schedules the save: with a callback set and nothing
    else pending, the save call is made 500 ms later, with the unchanged
    cache. *)
Theorem delete_event_uncached (filePath : string) (w : World) :
  isSupportedAudioFile (Js.lastSegment filePath) = true →
  getMetadata filePath (manager w) = None →
  let w' := handleFileChange filePath Delete w in
  getAllMetadata (manager w') = getAllMetadata (manager w)
  ∧ needsSave (manager w') = true
  ∧ (timers (loop w) = [] →
     onSaveNeeded (manager w) = true →
     ∀ ms,
       500 ≤ ms →
       saveCalls (loop (advance ms w'))
       = saveCalls (loop w)
         ++ [(now (loop w) + 500,
              {| metadata := Some (getAllMetadata (manager w)) |})]).
Proof.
  intros Hfilter Habsent w'. subst w'. unfold getMetadata in Habsent.
  split; [| split].
  - unfold handleFileChange. rewrite Hfilter. cbn [negb].
    rewrite scheduleSave_manager. simpl. now apply delete_id.
  - unfold handleFileChange. rewrite Hfilter. cbn [negb].
    now rewrite scheduleSave_manager.
  - intros Hidle Hcallback ms Hms. rewrite delete_world by trivial.
    erewrite advance_save_only; [| reflexivity | reflexivity | simpl; lia].
    cbn [loop now due manager].
    assert ((now (loop w) + 500 <=? now (loop w) + ms) = true) as ->
      by (apply Nat.leb_le; lia).
    cbn [loop saveCalls]. simpl. rewrite Hcallback, exportToSettings_cache.
    simpl. now rewrite delete_id.
Qed.

(** X14. [cleanup] empties the cache and the parser's registry and cancels
    the pending save timer, leaving the other timers and the dirty flag as
    they are.  So if only a save was pending, no save call is made however
    long one waits, though the manager may still be dirty. *)
Theorem cleanup_cancels_the_flush (w : World) :
  wellFormed w →
  let w' := cleanup w in
  getCacheSize (manager w') = 0
  ∧ blobUrls (parser (manager w')) = ∅
  ∧ needsSave (manager w') = needsSave (manager w)
  ∧ saveCalls (loop w') = saveCalls (loop w)
  ∧ timers (loop w')
    = List.filter (fun t => negb (isSaveTimer t)) (timers (loop w))
  ∧ pendingSaves w' = []
  ∧ ((∀ t, t ∈ timers (loop w) → task t = NotifySave) →
     ∀ ms, saveCalls (loop (advance ms w')) = saveCalls (loop w)).
Proof.
  intros Hw w'. subst w'. unfold cleanup, pendingSaves.
  cbn [manager loop]. rewrite clearSaveTimeout_timers by exact Hw.
  destruct (clearSaveTimeout_fields w) as (_ & _ & Hcalls).
  split; [reflexivity |]. split; [reflexivity |]. split; [reflexivity |].
  split; [exact Hcalls |]. split; [reflexivity |]. split.
  - apply filter_none. intros t [_ Ht]%list_elem_of_In%filter_In.
    now destruct (isSaveTimer t).
  - intros Hsaves ms. rewrite advance_idle.
    + exact Hcalls.
    + cbn [loop]. rewrite clearSaveTimeout_timers by exact Hw.
      rewrite filter_none; [intros t Ht; inversion Ht |].
      intros t Ht. unfold isSaveTimer. now rewrite (Hsaves t Ht).
Qed.

Lemma scheduleSave_idle (w : World) :
  timers (loop w) = [] →
  scheduleSave w
  = {| manager := withSaveTimeout (Some (nextTimerId (loop w))) (manager w);
       loop := {| now := now (loop w);
                  timers := [{| timerId := nextTimerId (loop w);
                                due := now (loop w) + 500;
                                task := NotifySave |}];
                  nextTimerId := S (nextTimerId (loop w));
                  saveCalls := saveCalls (loop w) |} |}.
Proof.
  intros Hidle.
  assert (scheduleSave w
          = {| manager := manager (scheduleSave w);
               loop := loop (scheduleSave w) |}) as ->
    by now destruct (scheduleSave w).
  rewrite scheduleSave_manager, scheduleSave_loop.
  rewrite clearSaveTimeout_idle by exact Hidle. now rewrite Hidle.
Qed.

Lemma clearSaveTimeout_loop (w : World) :
  wellFormed w →
  clearSaveTimeout w
  = withTimers (List.filter (fun t => negb (isSaveTimer t)) (timers (loop w)))
               (loop w).
Proof.
  intros Hw. pose proof (clearSaveTimeout_timers w Hw) as Hts.
  destruct (clearSaveTimeout_fields w) as (Hnow & Hnext & Hcalls).
  destruct (clearSaveTimeout w). unfold withTimers. simpl in *. congruence.
Qed.

(** X15. [cleanup] does not cancel a pending update timer.  After a
    [create] or [modify] event for a readable file, a [cleanup] and 500 ms,
    the emptied cache holds the record extracted for that file and nothing
    else, the parser is as that extraction left it, and a save is
    scheduled. *)
Theorem update_after_cleanup (filePath : string) (type : ChangeType)
    (w : World) (file : TFile) (buffer : list Byte.byte) (ms : nat) :
  wellFormed w →
  timers (loop w) = [] →
  isSupportedAudioFile (Js.lastSegment filePath) = true →
  type ≠ Delete →
  getAbstractFileByPath (app (manager w)) filePath = Some (IsFile file) →
  readBinary (app (manager w)) file = Normal buffer →
  500 ≤ ms < 1000 →
  let w' := run w [FileChanged filePath type; Cleanup; Elapsed ms] in
  let r := extractMetadata buffer (lyricsFromLrcFile (app (manager w)) file)
                           (parserCleanup (parser (manager w))) in
  getAllMetadata (manager w') = {[ filePath := r.1 ]}
  ∧ parser (manager w') = r.2
  ∧ pendingSaves w'
    = [{| timerId := S (nextTimerId (loop w)); due := now (loop w) + 1000;
          task := NotifySave |}].
Proof.
  intros Hw Hidle Hfilter Htype Hfile Hread Hms. cbn [run foldl step].
  pose proof (wellFormed_handleFileChange filePath type w Hw) as Hw1.
  unfold cleanup. rewrite clearSaveTimeout_loop by exact Hw1.
  rewrite modify_world by trivial. rewrite Hidle.
  cbn [enqueue loop timers List.filter isSaveTimer task negb manager
       withTimers now nextTimerId saveCalls].
  unfold advance, fuelFor.
  cbn [loop timers length Nat.mul Nat.add now manager].
  erewrite runTimers_step; [| reflexivity | simpl; lia].
  cbn [task fire manager loop].
  erewrite updateTimerFired_readable; [| exact Hfile | exact Hread].
  rewrite scheduleSave_idle by reflexivity.
  erewrite runTimers_wait; [| reflexivity | simpl; lia].
  cbn [manager loop withNow withTimers timers now nextTimerId onManager store
       withSaveTimeout withCache withParser cache parser fst snd app
       withDirty due].
  rewrite Nat.max_r by lia.
  split; [unfold getAllMetadata; simpl; apply insert_empty |].
  split; [reflexivity |].
  unfold pendingSaves.
  cbn [loop withNow timers List.filter isSaveTimer task].
  replace (now (loop w) + 500 + 500) with (now (loop w) + 1000) by lia.
  reflexivity.
Qed.

(** X16. The update callback does not set the dirty flag.  When a save
    timer is pending at a [create] or [modify] event and fires within the
    500 ms before the update timer, it clears the flag and the save call
    exports the cache as it was; the record extracted afterwards goes into
    the cache while [needsSave] is false, and is only covered by the save
    scheduled then. *)
Theorem record_stored_while_clean (filePath : string) (type : ChangeType)
    (w : World) (s : Timer) (file : TFile) (buffer : list Byte.byte)
    (ms : nat) :
  timers (loop w) = [s] →
  task s = NotifySave →
  now (loop w) ≤ due s ≤ now (loop w) + 500 →
  isSupportedAudioFile (Js.lastSegment filePath) = true →
  type ≠ Delete →
  getAbstractFileByPath (app (manager w)) filePath = Some (IsFile file) →
  readBinary (app (manager w)) file = Normal buffer →
  500 ≤ ms < 1000 →
  let w' := advance ms (handleFileChange filePath type w) in
  let r := extractMetadata buffer (lyricsFromLrcFile (app (manager w)) file)
                           (parser (manager w)) in
  getAllMetadata (manager w') = <[filePath := r.1]> (getAllMetadata (manager w))
  ∧ needsSave (manager w') = false
  ∧ saveCalls (loop w')
    = saveCalls (loop w)
      ++ (if onSaveNeeded (manager w)
          then [(due s, {| metadata := Some (getAllMetadata (manager w)) |})]
          else [])
  ∧ pendingSaves w'
    = [{| timerId := S (nextTimerId (loop w)); due := now (loop w) + 1000;
          task := NotifySave |}].
Proof.
  intros Hts Htask Hdue Hfilter Htype Hfile Hread Hms.
  rewrite modify_world by trivial. rewrite Hts. cbn [enqueue due].
  assert ((due s <=? now (loop w) + 500) = true) as ->
    by (apply Nat.leb_le; lia).
  unfold advance, fuelFor.
  cbn [loop timers length Nat.mul Nat.add now manager].
  erewrite runTimers_step; [| reflexivity | lia].
  rewrite Htask. cbn [fire]. unfold saveTimerFired.
  cbn [manager loop withNow withTimers now timers nextTimerId saveCalls
       withDirty onSaveNeeded].
  rewrite exportToSettings_cache. cbn [cache].
  rewrite (Nat.max_r _ _ (proj1 Hdue)).
  destruct (onSaveNeeded (manager w)).
  all: erewrite runTimers_step; [| reflexivity | simpl; lia].
  all: cbn [task fire manager loop].
  all: erewrite updateTimerFired_readable; [| exact Hfile | exact Hread].
  all: rewrite scheduleSave_idle by reflexivity.
  all: erewrite runTimers_wait; [| reflexivity | simpl; lia].
  all: unfold pendingSaves, needsSave, getAllMetadata.
  all: cbn [manager loop withNow withTimers timers now nextTimerId onManager
            store withSaveTimeout withCache withParser cache parser fst snd
            app withDirty due saveCalls isDirty List.filter isSaveTimer task].
  all: rewrite ?app_nil_r.
  all: replace (due s `max` (now (loop w) + 500) + 500)
         with (now (loop w) + 1000) by lia.
  all: easy.
Qed.

End Steps.

Lemma wellFormed_sample : wellFormed Sample.world.
Proof.
  apply (wellFormed_manager (newWorld Sample.vault)); [reflexivity |].
  apply wellFormed_newWorld.
Defined.

Lemma modify_event_on_missing_file_witness :
  let w' := @advance Sample.platform 5000
              (@handleFileChange Sample.platform "Music/c.mp3" Create
                 Sample.world) in
  getAllMetadata (manager w') = getAllMetadata (manager Sample.world)
  ∧ saveCalls (loop w') = []
  ∧ pendingSaves w' = []
  ∧ needsSave (manager w') = true
  ∧ timers (loop w') = [].
Proof.
  destruct (@modify_event_on_missing_file Sample.platform "Music/c.mp3"
              Create Sample.world 5000 eq_refl)
    as (Hcache & Hcalls & Hpending & Hdirty & Hidle);
    [discriminate | reflexivity | |].
  - intros file Hfile. vm_compute in Hfile. injection Hfile as <-.
    reflexivity.
  - repeat (split; [assumption |]). apply Hidle. lia.
Defined.

Lemma delete_event_uncached_witness :
  getAllMetadata
    (manager (@handleFileChange Sample.platform "Music/zzz.mp3" Delete
                Sample.world))
  = getAllMetadata (manager Sample.world)
  ∧ saveCalls
      (loop (@advance Sample.platform 500
               (@handleFileChange Sample.platform "Music/zzz.mp3" Delete
                  Sample.world)))
    = [(500, {| metadata := Some (getAllMetadata (manager Sample.world)) |})].
Proof.
  destruct (@delete_event_uncached Sample.platform "Music/zzz.mp3"
              Sample.world eq_refl eq_refl) as (Hcache & _ & Hsaved).
  split; [exact Hcache |].
  apply (Hsaved eq_refl eq_refl 500). lia.
Defined.

Lemma cleanup_cancels_the_flush_witness :
  let w := @handleFileChange Sample.platform "Music/a.mp3" Delete
             Sample.world in
  needsSave (manager w) = true
  ∧ length (pendingSaves w) = 1
  ∧ pendingSaves (cleanup w) = []
  ∧ needsSave (manager (cleanup w)) = true
  ∧ ∀ ms, saveCalls (loop (@advance Sample.platform ms (cleanup w))) = [].
Proof.
  intros w.
  destruct (@cleanup_cancels_the_flush Sample.platform w)
    as (_ & _ & Hdirty & _ & _ & Hpending & Hcalls).
  { apply (@wellFormed_handleFileChange Sample.platform), wellFormed_sample. }
  split; [reflexivity |]. split; [reflexivity |].
  split; [exact Hpending |]. split; [exact Hdirty |].
  apply Hcalls. intros t Ht.
  apply list_elem_of_singleton in Ht as ->. reflexivity.
Defined.

Lemma update_after_cleanup_witness :
  let w' := @run Sample.platform Sample.world
              [FileChanged "Music/a.mp3" Modify; Cleanup; Elapsed 500] in
  getAllMetadata (manager w')
  = {[ "Music/a.mp3" :=
         {| title := "Song"; artist := "Band"; album := "未知专辑";
            cover := None; lyrics := Some "[00:01.00]la la" |} ]}
  ∧ length (pendingSaves w') = 1.
Proof.
  destruct (@update_after_cleanup Sample.platform "Music/a.mp3" Modify
              Sample.world Sample.a_mp3 (Sample.bytesOf "ID3 tags and frames")
              500 wellFormed_sample eq_refl eq_refl)
    as (Hcache & _ & Hpending);
    [discriminate | reflexivity | reflexivity | lia |].
  split; [exact Hcache |]. now rewrite Hpending.
Defined.

Lemma record_stored_while_clean_witness :
  let w := @handleFileChange Sample.platform "Music/d.mp3" Delete
             Sample.world in
  let w' := @advance Sample.platform 500
              (@handleFileChange Sample.platform "Music/a.mp3" Modify w) in
  getMetadata "Music/a.mp3" (manager w')
  = Some {| title := "Song"; artist := "Band"; album := "未知专辑";
            cover := None; lyrics := Some "[00:01.00]la la" |}
  ∧ needsSave (manager w') = false
  ∧ saveCalls (loop w')
    = [(500, {| metadata := Some (getAllMetadata (manager Sample.world)) |})]
  ∧ length (pendingSaves w') = 1.
Proof.
  intros w w'.
  destruct (@record_stored_while_clean Sample.platform "Music/a.mp3" Modify w
              {| timerId := 1; due := 500; task := NotifySave |}
              Sample.a_mp3 (Sample.bytesOf "ID3 tags and frames") 500
              eq_refl eq_refl)
    as (Hcache & Hdirty & Hcalls & Hpending);
    [simpl; lia | reflexivity | discriminate | reflexivity | reflexivity
     | lia |].
  split; [| split; [exact Hdirty | split]].
  - unfold getMetadata, getAllMetadata in *. subst w'.
    rewrite Hcache. apply lookup_insert_eq.
  - exact Hcalls.
  - subst w'. now rewrite Hpending.
Defined.

Section NoCallback.
Context `{Platform}.

Lemma fire_without_callback (job : TimerTask) (w : World) :
  onSaveNeeded (manager w) = false →
  onSaveNeeded (manager (fire job w)) = false
  ∧ saveCalls (loop (fire job w)) = saveCalls (loop w).
Proof.
  intros Hcallback. destruct job as [filePath|]; cbn [fire].
  - unfold updateTimerFired.
    destruct (getAbstractFileByPath (app (manager w)) filePath)
      as [[file|]|]; cbn [tryCatch]; try easy.
    destruct (extractFileMetadata file (manager w)) as [r|];
      cbn [bindC tryCatch]; [| easy].
    rewrite scheduleSave_manager, scheduleSave_loop. easy.
  - unfold saveTimerFired. cbn [manager loop withDirty onSaveNeeded].
    now rewrite Hcallback.
Qed.

Lemma runTimers_without_callback (fuel deadline : nat) (w : World) :
  onSaveNeeded (manager w) = false →
  onSaveNeeded (manager (runTimers fuel deadline w)) = false
  ∧ saveCalls (loop (runTimers fuel deadline w)) = saveCalls (loop w).
Proof.
  revert w. induction fuel as [|fuel IH]; intros w Hcallback; [easy |].
  cbn [runTimers]. destruct (timers (loop w)) as [|t rest]; [easy |].
  destruct (due t <=? deadline); [| easy].
  set (popped := {| manager := manager w;
                    loop := withNow (Nat.max (now (loop w)) (due t))
                                    (withTimers rest (loop w)) |}).
  destruct (fire_without_callback (task t) popped Hcallback)
    as [Hfired Hcalls].
  destruct (IH (fire (task t) popped) Hfired) as [-> ->].
  now rewrite Hcalls.
Qed.

Lemma step_without_callback (w : World) (e : Event) :
  e ≠ SetSaveCallback →
  onSaveNeeded (manager w) = false →
  onSaveNeeded (manager (step w e)) = false
  ∧ saveCalls (loop (step w e)) = saveCalls (loop w).
Proof.
  intros He Hcallback. destruct e as [filePath type|ms|folders|settings| |];
    cbn [step]; [| | | | easy |].
  - unfold handleFileChange.
    destruct (isSupportedAudioFile (Js.lastSegment filePath)); [| easy].
    cbn [negb]. destruct type;
      rewrite ?scheduleSave_manager, ?scheduleSave_loop; easy.
  - unfold advance. cbn [manager loop withNow saveCalls].
    now apply runTimers_without_callback.
  - unfold refreshAllMetadata.
    destruct (List.filter validFolder folders) as [|folder valid]; [easy |].
    rewrite scheduleSave_manager, scheduleSave_loop.
    cbn [manager loop withSaveTimeout onSaveNeeded saveCalls].
    split; [| reflexivity].
    now destruct (processFiles_frame
                    (musicFilesIn (app (withDirty true (manager w)))
                                  (folder :: valid))
                    (loadExistingData (manager w))
                    (withDirty true (manager w))) as (_ & _ & _ & ->).
  - cbn [onManager manager loop]. split; [| reflexivity].
    now destruct (initializeFromSettings_frame settings (manager w))
      as (_ & _ & _ & ->).
  - unfold cleanup. cbn [manager loop]. split; [easy |].
    now destruct (clearSaveTimeout_fields w) as (_ & _ & ->).
Qed.

(** X17. As long as no save callback is set, no save call is made,
    whatever happens to the manager.  The save timer fires all the same:
    500 ms after a [delete] event, with nothing else pending, the dirty
    flag is cleared though nothing was saved. *)
Theorem no_save_without_callback (w : World) (events : list Event) :
  onSaveNeeded (manager w) = false →
  SetSaveCallback ∉ events →
  saveCalls (loop (run w events)) = saveCalls (loop w)
  ∧ (∀ filePath ms,
       isSupportedAudioFile (Js.lastSegment filePath) = true →
       timers (loop w) = [] →
       let w' := advance ms (handleFileChange filePath Delete w) in
       needsSave (manager w') = negb (500 <=? ms)
       ∧ (500 ≤ ms → timers (loop w') = [])).
Proof.
  intros Hcallback Hevents. split.
  - revert w Hcallback. unfold run.
    induction events as [|e events IH]; intros w Hcallback; [reflexivity |].
    cbn [foldl].
    destruct (step_without_callback w e) as [Hstill Hcalls];
      [intros ->; apply Hevents; left | exact Hcallback |].
    rewrite IH; [exact Hcalls | | exact Hstill].
    intros Hin. apply Hevents. now right.
  - intros filePath ms Hfilter Hidle. rewrite delete_world by trivial.
    erewrite advance_save_only; [| reflexivity | reflexivity | simpl; lia].
    cbn [loop now due manager].
    destruct (Nat.leb_spec 500 ms) as [Hlate | Hearly].
    + assert ((now (loop w) + 500 <=? now (loop w) + ms) = true) as ->
        by (apply Nat.leb_le; lia).
      easy.
    + assert ((now (loop w) + 500 <=? now (loop w) + ms) = false) as ->
        by (apply Nat.leb_gt; lia).
      simpl. split; [reflexivity |]. intros Hms. lia.
Qed.

End NoCallback.

Lemma no_save_without_callback_witness :
  let w := onManager (withCache {[ "Music/a.mp3" := Sample.record "T" None ]})
                     (newWorld Sample.vault) in
  let w' := @run Sample.platform w
              [FileChanged "Music/a.mp3" Delete; Elapsed 500;
               RefreshAll ["Music"]; Elapsed 5000] in
  saveCalls (loop w') = []
  ∧ needsSave (manager w') = false
  ∧ timers (loop w') = [].
Proof.
  intros w w'.
  destruct (@no_save_without_callback Sample.platform w
              [FileChanged "Music/a.mp3" Delete; Elapsed 500;
               RefreshAll ["Music"]; Elapsed 5000] eq_refl)
    as [Hcalls _].
  - intros Hin.
    repeat (apply elem_of_cons in Hin as [Hin | Hin]; [discriminate |]).
    inversion Hin.
  - split; [exact Hcalls |]. split; reflexivity.
Defined.

(** ** What a refresh touches *)

Section Scope.
Context `{Platform}.

Lemma elem_of_musicFilesIn (vault : Vault) (folders : list string)
    (file : TFile) :
  file ∈ musicFilesIn vault folders
  ↔ file ∈ getFiles vault
    ∧ isSupportedAudioFile (name file) = true
    ∧ ∃ folder, folder ∈ folders
                ∧ Js.startsWith (path file) (normalizePath folder) = true.
Proof.
  unfold musicFilesIn. rewrite list_elem_of_In, in_flat_map. split.
  - intros (folder & Hfolder & [Hfile [Hunder Hname]%andb_prop]%filter_In).
    apply list_elem_of_In in Hfile. apply list_elem_of_In in Hfolder.
    eauto 6.
  - intros (Hfile & Hname & folder & Hfolder & Hunder).
    exists folder. rewrite filter_In, <- !list_elem_of_In.
    now rewrite Hunder, Hname.
Qed.

Lemma processFiles_other (files : list TFile) (existingData : StoredData)
    (m : MetadataManager) (filePath : string) :
  (∀ file, file ∈ files → path file ≠ filePath) →
  cache (foldl (fun m file => processFileIfNeeded file existingData m)
               m files) !! filePath
  = cache m !! filePath.
Proof.
  revert m. induction files as [|file files IH]; intros m Hother;
    [reflexivity |].
  simpl. rewrite IH by (intros g Hg; apply Hother; now right).
  apply processFileIfNeeded_other. intros ->. now apply (Hother file); [left |].
Qed.

Lemma refresh_cache (folder : string) (valid folders : list string)
    (w : World) :
  List.filter validFolder folders = folder :: valid →
  cache (manager (refreshAllMetadata folders w))
  = cache (foldl (fun m file =>
                    processFileIfNeeded file (loadExistingData (manager w)) m)
                 (withDirty true (manager w))
                 (musicFilesIn (app (manager w)) (folder :: valid)))
  ∧ parser (manager (refreshAllMetadata folders w))
    = parser (foldl (fun m file =>
                       processFileIfNeeded file (loadExistingData (manager w))
                                           m)
                    (withDirty true (manager w))
                    (musicFilesIn (app (manager w)) (folder :: valid)))
  ∧ app (manager (refreshAllMetadata folders w)) = app (manager w).
Proof.
  intros Hvalid. unfold refreshAllMetadata. rewrite Hvalid.
  rewrite scheduleSave_manager. cbn [manager withSaveTimeout cache parser app].
  split; [reflexivity |]. split; [reflexivity |].
  now destruct (processFiles_frame
                  (musicFilesIn (app (withDirty true (manager w)))
                                (folder :: valid))
                  (loadExistingData (manager w))
                  (withDirty true (manager w))) as (-> & _).
Qed.

(** X18. [refreshAllMetadata] does not clear the cache: every path that
    was cached is cached afterwards.  The entry of a path is left as it is
    unless a file of the vault with that path has a name the suffix filter
    accepts and lies under one of the valid folders. *)
Theorem refresh_scope (folders : list string) (w : World) :
  let w' := refreshAllMetadata folders w in
  (∀ filePath,
     is_Some (getMetadata filePath (manager w)) →
     is_Some (getMetadata filePath (manager w')))
  ∧ (∀ filePath,
       (∀ file folder,
          file ∈ getFiles (app (manager w)) →
          path file = filePath →
          isSupportedAudioFile (name file) = true →
          folder ∈ folders →
          validFolder folder = true →
          Js.startsWith filePath (normalizePath folder) = false) →
       getMetadata filePath (manager w') = getMetadata filePath (manager w)).
Proof.
  intros w'. subst w'. unfold getMetadata.
  destruct (List.filter validFolder folders) as [|folder valid] eqn:Hvalid.
  { unfold refreshAllMetadata. rewrite Hvalid. easy. }
  destruct (refresh_cache folder valid folders w Hvalid) as (-> & _ & _).
  split.
  - intros filePath Hcached. now apply processFiles_keeps.
  - intros filePath Hout. rewrite processFiles_other; [reflexivity |].
    intros file (Hfile & Hname & f & Hf & Hunder)%elem_of_musicFilesIn Hpath.
    rewrite <- Hvalid in Hf.
    apply list_elem_of_In, filter_In in Hf as [Hf%list_elem_of_In Hok].
    rewrite Hpath in Hunder.
    now rewrite (Hout file f Hfile Hpath Hname Hf Hok) in Hunder.
Qed.

Lemma existingFor_path (existingData : StoredData) (file g : TFile) :
  path g = path file →
  existingFor existingData g = existingFor existingData file.
Proof. intros Hpath. unfold existingFor. now rewrite Hpath. Qed.

Lemma processFiles_reused_parser (files : list TFile)
    (existingData : StoredData) (m : MetadataManager) :
  (∀ file, file ∈ files →
           ∃ e, existingFor existingData file = Some e ∧ complete e ≠ None) →
  parser (foldl (fun m file => processFileIfNeeded file existingData m)
                m files)
  = parser m.
Proof.
  revert m. induction files as [|file files IH]; intros m Hcomplete;
    [reflexivity |].
  simpl. rewrite IH by (intros g Hg; apply Hcomplete; now right).
  destruct (Hcomplete file) as (e & He & Hta); [left |].
  destruct (complete e) as [[t a]|] eqn:Hcomplete_e; [| easy].
  now rewrite (processFileIfNeeded_reuses file existingData m e t a).
Qed.

Lemma processFiles_settled (files : list TFile)
    (existingData : StoredData) (m : MetadataManager) :
  (∀ file, file ∈ files →
           ∃ e t a, existingFor existingData file = Some e
                    ∧ complete e = Some (t, a)
                    ∧ cache m !! path file = Some (reusedMetadata t a e)) →
  cache (foldl (fun m file => processFileIfNeeded file existingData m)
               m files)
  = cache m.
Proof.
  revert m. induction files as [|file files IH]; intros m Hsettled;
    [reflexivity |].
  simpl.
  destruct (Hsettled file) as (e & t & a & He & Hta & Hcached); [left |].
  rewrite (processFileIfNeeded_reuses file existingData m e t a He Hta).
  rewrite IH.
  - simpl. now apply insert_id.
  - intros g Hg. destruct (Hsettled g) as (e' & t' & a' & He' & Hta' & Hg');
      [now right |].
    exists e', t', a'. split; [exact He' |]. split; [exact Hta' |].
    simpl. now rewrite insert_id.
Qed.

(** X19. When every file of the batch has a complete stored record, a
    refresh extracts nothing: the parser is left as it was, and each file
    gets its stored title and artist, its stored album or "未知专辑", and
    its stored cover and lyrics, empty strings becoming [null]; the stored
    cover is taken over as it is, with no test for "blob:".  A second
    refresh leaves the cache as the first one made it. *)
Theorem refresh_reuses_stored_records (folders : list string) (w : World) :
  let w' := refreshAllMetadata folders w in
  let batch :=
    musicFilesIn (app (manager w)) (List.filter validFolder folders) in
  let existingData := loadExistingData (manager w) in
  (∀ file, file ∈ batch →
           ∃ e, existingFor existingData file = Some e ∧ complete e ≠ None) →
  parser (manager w') = parser (manager w)
  ∧ (∀ file e t a,
       file ∈ batch →
       existingFor existingData file = Some e →
       complete e = Some (t, a) →
       getMetadata (path file) (manager w')
       = Some {| title := t; artist := a;
                 album := orString (stored_album e) "未知专辑";
                 cover := orText (stored_cover e) None;
                 lyrics := orText (stored_lyrics e) None |})
  ∧ getAllMetadata (manager (refreshAllMetadata folders w'))
    = getAllMetadata (manager w').
Proof.
  intros w' batch existingData Hcomplete. subst w' batch existingData.
  unfold getMetadata, getAllMetadata.
  destruct (List.filter validFolder folders) as [|folder valid] eqn:Hvalid.
  { unfold refreshAllMetadata. rewrite Hvalid. split; [reflexivity |].
    split; [| reflexivity]. intros file e t a Hfile. inversion Hfile. }
  destruct (refresh_cache folder valid folders w Hvalid)
    as (Hcache & Hparser & Happ).
  set (ed := loadExistingData (manager w)) in *.
  set (batch := musicFilesIn (app (manager w)) (folder :: valid)) in *.
  assert (∀ file e t a,
            file ∈ batch →
            existingFor ed file = Some e →
            complete e = Some (t, a) →
            cache (manager (refreshAllMetadata folders w)) !! path file
            = Some (reusedMetadata t a e)) as Hreused.
  { intros file e t a Hfile He Hta. rewrite Hcache.
    destruct (processFiles_lookup (fun r => r = reusedMetadata t a e)
                batch ed (app (manager w)) (path file))
      with (m := withDirty true (manager w)) as (r & Hr & ->); trivial.
    - intros g m Hg Hpath Happ_m.
      rewrite (processFileIfNeeded_reuses g ed m e t a);
        [| now rewrite (existingFor_path ed file g) | exact Hta].
      simpl. rewrite Hpath, lookup_insert_eq. eauto.
    - right. now exists file. }
  split; [| split].
  - rewrite Hparser, processFiles_reused_parser by exact Hcomplete.
    reflexivity.
  - exact Hreused.
  - destruct (refresh_cache folder valid folders
                (refreshAllMetadata folders w) Hvalid) as (-> & _ & _).
    assert (loadExistingData (manager (refreshAllMetadata folders w)) = ed)
      as -> by (unfold ed, loadExistingData; now rewrite Happ).
    rewrite Happ. fold batch. rewrite processFiles_settled; [reflexivity |].
    intros file Hfile. destruct (Hcomplete file Hfile) as (e & He & Hta).
    destruct (complete e) as [[t a]|] eqn:Hcomplete_e; [| easy].
    exists e, t, a. split; [exact He |]. split; [exact Hcomplete_e |].
    simpl. now apply Hreused.
Qed.

Lemma loadExistingData_fallback (m : MetadataManager) :
  (∀ dataFile content,
     getAbstractFileByPath (app m)
       (configDir (app m) +:+ "/plugins/albus-status-bar-music/data.json")
     = Some (IsFile dataFile) →
     read (app m) dataFile = Normal content →
     JSON_parse content = Thrown) →
  loadExistingData m = emptyData.
Proof.
  intros Hbroken. unfold loadExistingData.
  destruct (getAbstractFileByPath _ _) as [[dataFile|]|] eqn:Hfile;
    try reflexivity.
  destruct (read (app m) dataFile) as [content|] eqn:Hread; [| reflexivity].
  simpl. now rewrite (Hbroken dataFile content).
Qed.

(** X20. When the data file of the plugin is missing, is a folder, cannot
    be read or does not parse, [loadExistingData] returns an empty
    [metadata] object, and the refresh extracts every readable file of the
    batch: nothing is reused. *)
Theorem refresh_without_data_file (folders : list string) (w : World) :
  let w' := refreshAllMetadata folders w in
  let batch :=
    musicFilesIn (app (manager w)) (List.filter validFolder folders) in
  (∀ dataFile content,
     getAbstractFileByPath (app (manager w))
       (configDir (app (manager w))
        +:+ "/plugins/albus-status-bar-music/data.json")
     = Some (IsFile dataFile) →
     read (app (manager w)) dataFile = Normal content →
     JSON_parse content = Thrown) →
  loadExistingData (manager w) = emptyData
  ∧ ∀ file buffer,
      file ∈ batch →
      (∀ g, g ∈ batch → path g = path file → g = file) →
      readBinary (app (manager w)) file = Normal buffer →
      ∃ p,
        getMetadata (path file) (manager w')
        = Some (extractMetadata buffer
                  (lyricsFromLrcFile (app (manager w)) file) p).1.
Proof.
  intros w' batch Hbroken. subst w' batch. unfold getMetadata.
  pose proof (loadExistingData_fallback (manager w) Hbroken) as Hempty.
  split; [exact Hempty |]. intros file buffer Hfile Hunique Hread.
  destruct (List.filter validFolder folders) as [|folder valid] eqn:Hvalid;
    [inversion Hfile |].
  destruct (refresh_cache folder valid folders w Hvalid) as (-> & _ & _).
  rewrite Hempty.
  set (batch := musicFilesIn (app (manager w)) (folder :: valid)) in *.
  destruct (processFiles_lookup
              (fun r => ∃ p, r = (extractMetadata buffer
                                    (lyricsFromLrcFile (app (manager w)) file)
                                    p).1)
              batch emptyData (app (manager w)) (path file))
    with (m := withDirty true (manager w)) as (r & Hr & p & ->); trivial.
  - intros g m Hg Hpath Happ. rewrite (Hunique g Hg Hpath).
    rewrite (processFileIfNeeded_extracts _ _ _ buffer).
    + simpl. rewrite lookup_insert_eq, Happ. eauto.
    + intros e. unfold existingFor. simpl. now rewrite lookup_empty.
    + now rewrite Happ.
  - right. now exists file.
  - now exists p.
Qed.


End Scope.

Lemma refresh_scope_witness :
  let w := onManager
             (withCache {[ "Music/old.mp3" := Sample.record "Old" None ]})
             Sample.world in
  getMetadata "Music/old.mp3"
    (manager (@refreshAllMetadata Sample.platform ["Music"] w))
  = Some (Sample.record "Old" None).
Proof.
  intros w.
  apply (proj2 (@refresh_scope Sample.platform ["Music"] w) "Music/old.mp3").
  intros file folder Hfile Hpath.
  repeat (apply elem_of_cons in Hfile as [-> | Hfile]; [discriminate |]).
  inversion Hfile.
Defined.

Lemma refresh_reuses_stored_records_witness :
  let w' := @refreshAllMetadata Sample.platform ["Music/d"] Sample.world in
  parser (manager w') = parser (manager Sample.world)
  ∧ getMetadata "Music/d.mp3" (manager w')
    = Some {| title := "Kept"; artist := "A"; album := "B";
              cover := None; lyrics := None |}
  ∧ getAllMetadata
      (manager (@refreshAllMetadata Sample.platform ["Music/d"] w'))
    = getAllMetadata (manager w').
Proof.
  destruct (@refresh_reuses_stored_records Sample.platform ["Music/d"]
              Sample.world) as (Hparser & Hreused & Hagain).
  - intros file Hfile. apply list_elem_of_singleton in Hfile as ->.
    exists Sample.storedComplete. split; [reflexivity | discriminate].
  - split; [exact Hparser |]. split; [| exact Hagain].
    apply (Hreused Sample.d_mp3 Sample.storedComplete "Kept" "A");
      [left | reflexivity | reflexivity].
Defined.

Lemma refresh_without_data_file_witness :
  let w := newWorld Album.firstRun in
  @loadExistingData Sample.platform (manager w) = emptyData
  ∧ ∃ p,
      getMetadata "Music/a.mp3"
        (manager (@refreshAllMetadata Sample.platform ["Music"] w))
      = Some (@extractMetadata Sample.platform
                (Sample.bytesOf "ID3 tags and frames")
                (Some "[00:01.00]la la") p).1.
Proof.
  intros w.
  destruct (@refresh_without_data_file Sample.platform ["Music"] w)
    as [Hempty Hextracted].
  - intros dataFile content Hfile. discriminate.
  - split; [exact Hempty |].
    apply (Hextracted Sample.a_mp3 (Sample.bytesOf "ID3 tags and frames"));
      [left | | reflexivity].
    intros g Hg.
    repeat (apply elem_of_cons in Hg as [-> | Hg]; [easy |]).
    inversion Hg.
Defined.


(** ** Loading a cover *)

Section LoadCover.
Context `{Platform}.

(** X22. [loadCoverForFile] adds and removes no path, leaves the records
    of other paths alone, and changes at most the cover of the record of
    its own path, to a non-empty URL; it neither marks the manager dirty
    nor schedules a save.  When the path is not a file of the vault, or the
    file cannot be read, the manager is left exactly as it was. *)
Theorem loadCoverForFile_only_cover (filePath : string)
    (m : MetadataManager) :
  let m' := loadCoverForFile filePath m in
  dom (getAllMetadata m') = dom (getAllMetadata m)
  ∧ (∀ other, other ≠ filePath → getMetadata other m' = getMetadata other m)
  ∧ (getMetadata filePath m' = getMetadata filePath m
     ∨ ∃ r url,
         getMetadata filePath m = Some r
         ∧ url ≠ EmptyString
         ∧ getMetadata filePath m' = Some (withCover (Some url) r))
  ∧ needsSave m' = needsSave m
  ∧ saveTimeout m' = saveTimeout m
  ∧ ((∀ file,
        getAbstractFileByPath (app m) filePath = Some (IsFile file) →
        readBinary (app m) file = Thrown) →
     m' = m).
Proof.
  intros m'. subst m'. unfold loadCoverForFile, getMetadata, getAllMetadata.
  destruct (getAbstractFileByPath (app m) filePath) as [[file|]|] eqn:Hfile;
    cbn [tryCatch]; try (repeat split; auto; fail).
  unfold extractFileMetadata.
  destruct (readBinary (app m) file) as [buffer|] eqn:Hread;
    cbn [bindC tryCatch]; [| repeat split; auto].
  set (r := extractMetadata buffer (lyricsFromLrcFile (app m) file) (parser m)).
  destruct (cache m !! filePath) as [existingMetadata|] eqn:Hcached.
  - destruct (cover r.1) as [url|] eqn:Hcover; cbn [truthyText].
    + destruct (Js.nonEmpty url) eqn:Hurl.
      * cbn [cache withCache withParser isDirty saveTimeout needsSave].
        split; [apply dom_insert_lookup_L; now rewrite Hcached |].
        split; [intros other Hother; now apply lookup_insert_ne |].
        split.
        { right. exists existingMetadata, url. split; [reflexivity |].
          split; [now apply nonEmpty_true |]. apply lookup_insert_eq. }
        repeat split. intros Hthrown. now rewrite (Hthrown file) in Hread.
      * repeat split; auto.
        intros Hthrown. now rewrite (Hthrown file) in Hread.
    + repeat split; auto.
      intros Hthrown. now rewrite (Hthrown file) in Hread.
  - repeat split; auto.
    intros Hthrown. now rewrite (Hthrown file) in Hread.
Qed.

End LoadCover.

Lemma loadCoverForFile_only_cover_witness :
  getMetadata "Music/a.mp3"
    (@loadCoverForFile Album.platform "Music/a.mp3" (manager Sample.world))
  = Some {| title := "T"; artist := "A"; album := "B";
            cover := Some "blob:0"; lyrics := None |}
  ∧ @loadCoverForFile Album.platform "Music/c.mp3" (manager Sample.world)
    = manager Sample.world.
Proof.
  split; [reflexivity |].
  apply (@loadCoverForFile_only_cover Album.platform "Music/c.mp3"
           (manager Sample.world)).
  intros file Hfile. vm_compute in Hfile. injection Hfile as <-. reflexivity.
Defined.

(** ** The registry of cover URLs *)

Section Registry.
Context `{Platform}.

Lemma extractCover_registry (pictures : option (list mm.IPicture))
    (p : MetadataParser) :
  registryIssued p → registryIssued (extractCover pictures p).2.
Proof.
  intros Hissued. destruct pictures as [[|picture rest]|]; trivial.
  intros url Hurl. cbn [extractCover snd blobUrls issued] in Hurl |- *.
  destruct (decide (url = createObjectURL (issued p))) as [-> | Hother].
  - exists (issued p). split; [apply Nat.lt_succ_diag_r | reflexivity].
  - rewrite lookup_insert_ne in Hurl by congruence.
    destruct (Hissued url Hurl) as (k & Hk & ->). exists k.
    split; [now apply Nat.lt_lt_succ_r | reflexivity].
Qed.

Lemma extractMetadata_registry (arrayBuffer : list Byte.byte)
    (lrc : option string) (p : MetadataParser) :
  registryIssued p → registryIssued (extractMetadata arrayBuffer lrc p).2.
Proof.
  intros Hissued. unfold extractMetadata.
  destruct (parseBuffer arrayBuffer) as [md|]; cbn [bindC tryCatch snd];
    [| exact Hissued].
  pose proof (extractCover_registry (mm.picture (mm.common md)) p Hissued).
  now destruct (extractCover (mm.picture (mm.common md)) p).
Qed.

Lemma processFileIfNeeded_registry (file : TFile) (existingData : StoredData)
    (m : MetadataManager) :
  registryIssued (parser m) →
  registryIssued (parser (processFileIfNeeded file existingData m)).
Proof.
  intros Hissued. unfold processFileIfNeeded, extractFileMetadata.
  assert (registryIssued
            (parser
               (tryCatch
                  (bindC
                     (bindC (readBinary (app m) file) (fun arrayBuffer =>
                        Normal (extractMetadata arrayBuffer
                                  (lyricsFromLrcFile (app m) file)
                                  (parser m))))
                     (fun r => Normal (store (path file) r m)))
                  (withCache (<[path file := defaultMetadata file]> (cache m))
                             m)))) as Hreprocess.
  { destruct (readBinary (app m) file) as [buffer|];
      cbn [bindC tryCatch]; [| exact Hissued].
    now apply extractMetadata_registry. }
  destruct (existingFor existingData file) as [e|]; [| exact Hreprocess].
  destruct (complete e) as [[t a]|]; [exact Hissued | exact Hreprocess].
Qed.

Lemma fire_registry (job : TimerTask) (w : World) :
  registryIssued (parser (manager w)) →
  registryIssued (parser (manager (fire job w))).
Proof.
  intros Hissued. destruct job as [filePath|]; cbn [fire]; [| exact Hissued].
  unfold updateTimerFired, extractFileMetadata.
  destruct (getAbstractFileByPath (app (manager w)) filePath)
    as [[file|]|]; cbn [tryCatch]; try exact Hissued.
  destruct (readBinary (app (manager w)) file) as [buffer|];
    cbn [bindC tryCatch]; [| exact Hissued].
  rewrite scheduleSave_manager. cbn.
  now apply extractMetadata_registry.
Qed.

Lemma step_registry (w : World) (e : Event) :
  registryIssued (parser (manager w)) →
  registryIssued (parser (manager (step w e))).
Proof.
  intros Hissued. destruct e as [filePath type|ms|folders|settings| |];
    cbn [step].
  - unfold handleFileChange.
    destruct (isSupportedAudioFile (Js.lastSegment filePath)); [| easy].
    cbn [negb]. destruct type; rewrite ?scheduleSave_manager; exact Hissued.
  - unfold advance. cbn [manager].
    generalize (now (loop w) + ms). generalize (fuelFor w). intros fuel.
    revert w Hissued. induction fuel as [|fuel IH]; intros w Hissued deadline;
      [exact Hissued |].
    cbn [runTimers]. destruct (timers (loop w)) as [|t rest]; [easy |].
    destruct (due t <=? deadline); [| easy].
    apply IH. now apply fire_registry.
  - unfold refreshAllMetadata.
    destruct (List.filter validFolder folders) as [|folder valid]; [easy |].
    rewrite scheduleSave_manager. cbn [manager withSaveTimeout parser].
    generalize (musicFilesIn (app (withDirty true (manager w)))
                             (folder :: valid)).
    intros files.
    assert (registryIssued (parser (withDirty true (manager w)))) as Hstart
      by exact Hissued.
    revert Hstart. generalize (withDirty true (manager w)).
    induction files as [|file files IH]; intros m Hm; [exact Hm |].
    cbn [foldl]. apply IH. now apply processFileIfNeeded_registry.
  - cbn [onManager manager].
    destruct settings as [[entries|]].
    + now destruct (initializeFromSettings_progress entries (manager w))
        as (_ & _ & ->).
    + exact Hissued.
  - exact Hissued.
  - intros url [blob Hblob]. cbn in Hblob. now rewrite lookup_empty in Hblob.
Qed.

(** X23. Whatever happens to a new manager, every URL in the registry
    of its parser is one the parser handed out before: the registry never
    holds a URL that a later extraction could be given. *)
Theorem registry_holds_issued_urls (vault : Vault) (events : list Event) :
  registryIssued (parser (manager (run (newWorld vault) events))).
Proof.
  assert (registryIssued (parser (manager (newWorld vault)))) as Hstart.
  { intros url [blob Hblob]. cbn in Hblob. now rewrite lookup_empty in Hblob. }
  revert Hstart. generalize (newWorld vault). unfold run.
  induction events as [|e events IH]; intros w Hw; [exact Hw |].
  cbn [foldl]. apply IH. now apply step_registry.
Qed.

End Registry.

Lemma registry_holds_issued_urls_witness :
  let w := @run Album.platform (newWorld Sample.vault)
             [RefreshAll ["Music"]; FileChanged "Music/a.mp3" Modify;
              Elapsed 500] in
  size (blobUrls (parser (manager w))) = 3
  ∧ ∃ k, k < issued (parser (manager w)) ∧ "blob:2" = createObjectURL k.
Proof.
  intros w. split; [reflexivity |].
  apply (@registry_holds_issued_urls Album.platform Sample.vault
           [RefreshAll ["Music"]; FileChanged "Music/a.mp3" Modify;
            Elapsed 500] "blob:2").
  eexists. reflexivity.
Defined.
